(** * N3 sleep scoring (Sleepapnean3.py): a shallow embedding and its properties

    The Python module scores 30-second EEG epochs for N3 sleep.  Its three
    functions are embedded here:

    - [check_signal_quality]  (lines 17-38)
    - [score_n3_epoch]        (lines 43-110)
    - [score_n3_epochs]       (lines 115-149)

    Conventions of the embedding.

    - Samples and every other Python float are rationals ([Q]); arithmetic is
      exact.  Rounding, infinities and NaN of binary64 are not modelled.
    - A Python number that may be an [int] or a [float] ([fs],
      [epoch_duration]) is a [pynum]; the operators [*], [//] and [range]
      dispatch on the tag as Python does.
    - A call that may raise returns an [exc]; [Raise] propagates through
      [;;] the way an uncaught exception does (the module has no [try]).
    - [scipy.signal.firwin] and [scipy.signal.filtfilt] are not part of the
      module: they are variables of the section that holds the scorer. *)

From Stdlib Require Import String Bool ZArith QArith Qabs Qround Lia Lqa List.
From Equations Require Import Equations.
Import ListNotations.

Set Implicit Arguments.

(* ===================================================================== *)
(** * Python values and exceptions *)
(* ===================================================================== *)

Module Py.

Inductive exception : Type :=
| ZeroDivisionError
| TypeError
| ValueError
| IndexError.

(** The outcome of a call: a value, or an exception on its way up. *)
Inductive exc (A : Type) : Type :=
| Ok (a : A)
| Raise (e : exception).
Arguments Raise {A} e.

Definition bind {A B : Type} (c : exc A) (k : A -> exc B) : exc B :=
  match c with
  | Ok a => k a
  | Raise e => Raise e
  end.

(** An [int] or a [float]. *)
Inductive pynum : Type :=
| PyInt (z : Z)
| PyFloat (q : Q).

(** The float a number is converted to in mixed arithmetic. *)
Definition to_float (x : pynum) : Q :=
  match x with
  | PyInt z => inject_Z z
  | PyFloat q => q
  end.

(** [a * b]: an [int] when both are, a [float] otherwise. *)
Definition mul (a b : pynum) : pynum :=
  match a, b with
  | PyInt x, PyInt y => PyInt (x * y)
  | _, _ => PyFloat (to_float a * to_float b)
  end.

(** [a + b]. *)
Definition add (a b : pynum) : pynum :=
  match a, b with
  | PyInt x, PyInt y => PyInt (x + y)
  | _, _ => PyFloat (to_float a + to_float b)
  end.

(** [a // b]: floor division; [ZeroDivisionError] on a zero divisor, an
    [int] when both are, a [float] otherwise. *)
Definition floordiv (a b : pynum) : exc pynum :=
  match a, b with
  | PyInt x, PyInt y =>
      if (y =? 0)%Z then Raise ZeroDivisionError else Ok (PyInt (x / y))
  | _, _ =>
      if Qeq_bool (to_float b) 0 then Raise ZeroDivisionError
      else Ok (PyFloat (inject_Z (Qfloor (to_float a / to_float b))))
  end.

(** [a / b] on floats: [ZeroDivisionError] on a zero divisor. *)
Definition truediv (a b : Q) : exc Q :=
  if Qeq_bool b 0 then Raise ZeroDivisionError else Ok (a / b).

(** [range(n)]: 0, 1, ..., n-1 (empty when n <= 0); [TypeError] when [n]
    is a [float]. *)
Definition range (n : pynum) : exc (list Z) :=
  match n with
  | PyInt z => Ok (map Z.of_nat (seq 0 (Z.to_nat z)))
  | PyFloat _ => Raise TypeError
  end.

(** An index used in a slice: [TypeError] when it is a [float]. *)
Definition index (n : pynum) : exc Z :=
  match n with
  | PyInt z => Ok z
  | PyFloat _ => Raise TypeError
  end.

(** A slice bound brought into [0, len]: a negative bound counts from the
    end, and bounds beyond either end are clipped. *)
Definition clip (len : nat) (k : Z) : nat :=
  if (k <? 0)%Z then Z.to_nat (Z.of_nat len + k)
  else Nat.min (Z.to_nat k) len.

(** [a[lo:hi]]. *)
Definition slice {A : Type} (a : list A) (lo hi : Z) : list A :=
  let l := clip (length a) lo in
  let h := clip (length a) hi in
  firstn (h - l) (skipn l a).

(** [a[i]] for [i >= 0]: [IndexError] beyond the end. *)
Definition getitem {A : Type} (a : list A) (i : nat) : exc A :=
  match nth_error a i with
  | Some x => Ok x
  | None => Raise IndexError
  end.

End Py.

Import Py.

Notation "x <- c ;; k" := (Py.bind c (fun x => k))
  (at level 61, c at next level, right associativity).

(** Boolean comparisons on floats: [x < y] and [x <= y]. *)
Definition Qltb (x y : Q) : bool :=
  match x ?= y with
  | Lt => true
  | _ => false
  end.

Definition Qleb (x y : Q) : bool := Qle_bool x y.

(* ===================================================================== *)
(** * The numpy functions the module calls *)
(* ===================================================================== *)

Module Np.

Local Open Scope Q_scope.

(** [np.abs(a)]. *)
Definition abs (a : list Q) : list Q := map Qabs a.

Definition maximum (x y : Q) : Q := if Qltb x y then y else x.
Definition minimum (x y : Q) : Q := if Qltb y x then y else x.

(** [np.max(a)], [np.min(a)]: [ValueError] on an empty array. *)
Definition max (a : list Q) : exc Q :=
  match a with
  | [] => Raise ValueError
  | x :: r => Ok (fold_left maximum r x)
  end.

Definition min (a : list Q) : exc Q :=
  match a with
  | [] => Raise ValueError
  | x :: r => Ok (fold_left minimum r x)
  end.

(** [np.sum(a)]. *)
Definition sum (a : list Q) : Q := fold_left Qplus a 0.

(** [np.mean(a)].  On an empty array numpy gives nan (with a warning);
    here the quotient by a zero length is [Q]'s, 0.  Every call below is
    on an array with at least one element. *)
Definition mean (a : list Q) : Q :=
  sum a / inject_Z (Z.of_nat (length a)).

(** [np.var(a)] with its default [ddof=0]: the mean of the squared
    deviations from the mean (the divisor is N, not N-1). *)
Definition var (a : list Q) : Q :=
  let arrmean := mean a in
  mean (map (fun x => (x - arrmean) * (x - arrmean)) a).

(** [np.diff(a)]: [a[1:] - a[:-1]]. *)
Fixpoint diff (a : list Q) : list Q :=
  match a with
  | x :: (y :: _) as r => (y - x) :: diff r
  | _ => []
  end.

(** [np.sign(x)]: -1, 0 or 1. *)
Definition sign1 (x : Q) : Q :=
  if Qltb 0 x then 1 else if Qltb x 0 then -1 else 0.

Definition sign (a : list Q) : list Q := map sign1 a.

(** [np.where(a)[0]]: the indices of the non-zero entries, increasing. *)
Fixpoint where_from (k : nat) (a : list Q) : list nat :=
  match a with
  | [] => []
  | x :: r =>
      if Qeq_bool x 0 then where_from (S k) r else k :: where_from (S k) r
  end.

Definition where_ (a : list Q) : list nat := where_from 0 a.

(** [np.any(a)] on an array of booleans. *)
Definition any (a : list bool) : bool := existsb (fun b => b) a.

End Np.

(* ===================================================================== *)
(** * Signal quality check (lines 17-38) *)
(* ===================================================================== *)

Local Open Scope Q_scope.

Definition check_signal_quality (signal : list Q) (fs : pynum) : exc bool :=
  if (length signal <? 2)%nat then Ok false            (* too short *)
  else
    peak <- Np.max (Np.abs signal) ;;
    if Qeq_bool peak 0 then Ok false                    (* flat signal *)
    else
      let signal_power := Np.var signal in
      let noise_power := Np.var (Np.diff signal) in
      if Qeq_bool noise_power 0 then Ok (Qltb 0.1 signal_power)
      else
        let snr := signal_power / noise_power in
        Ok (Qltb 5.0 snr).

(* ===================================================================== *)
(** * Single-epoch scoring (lines 43-110) *)
(* ===================================================================== *)

(** A value together with a proof of what it is equal to: lets a recursive
    call depend on the outcome of a test. *)
Definition inspect {A : Type} (a : A) : {b : A | a = b} := exist _ a eq_refl.

Section Validator.

(** The loop of Step 3 reads three names of the enclosing function. *)
Variable eeg_filtered : list Q.
Variable zero_crossings : list nat.
Variable fs : Q.

(** [eeg_filtered[start_idx:end_idx]]. *)
Definition candidate (start_idx end_idx : nat) : list Q :=
  Py.slice eeg_filtered (Z.of_nat start_idx) (Z.of_nat end_idx).

(** [(end_idx - start_idx) / fs].  [fs] is not zero here: line 70 has
    divided by it. *)
Definition duration (start_idx end_idx : nat) : Q :=
  inject_Z (Z.of_nat end_idx - Z.of_nat start_idx) / fs.

(** The three tests of Steps 3a-3c on a window with at least 2 samples. *)
Definition validate (start_idx end_idx : nat) : exc bool :=
  let candidate_wave := candidate start_idx end_idx in
  hi <- Np.max candidate_wave ;;
  lo <- Np.min candidate_wave ;;
  let peak_to_peak := hi - lo in
  let is_tall_enough := Qleb 75 peak_to_peak in
  let duration_sec := duration start_idx end_idx in
  let is_slow_enough := Qleb 0.5 duration_sec && Qleb duration_sec 2.0 in
  let has_both_signs :=
    Np.any (map (fun x => Qltb 0 x) candidate_wave)
    && Np.any (map (fun x => Qltb x 0) candidate_wave) in
  Ok (is_tall_enough && is_slow_enough && has_both_signs).

(** One pass through the body of the [while] loop (lines 82-106): the
    cursor and the running total after it. *)
Definition wave_step (i : nat) (total_swa_time : Q) : exc (nat * Q) :=
  start_idx <- getitem zero_crossings i ;;
  end_idx <- getitem zero_crossings (i + 2) ;;
  let candidate_wave := candidate start_idx end_idx in
  if (length candidate_wave <? 2)%nat then Ok ((i + 1)%nat, total_swa_time)
  else
    valid <- validate start_idx end_idx ;;
    if valid
    then Ok ((i + 2)%nat, total_swa_time + duration start_idx end_idx)
    else Ok ((i + 1)%nat, total_swa_time).

(** The loop test, [i < len(zero_crossings) - 2], on Python ints. *)
Definition loop_test (i : nat) : bool :=
  (Z.of_nat i <? Z.of_nat (length zero_crossings) - 2)%Z.

(** The [while] loop from cursor [i] with running total [total_swa_time];
    its value is the total when the loop is left. *)
Equations? scan (i : nat) (total_swa_time : Q) : exc Q
  by wf (length zero_crossings - i)%nat lt :=
  scan i total_swa_time with inspect (loop_test i) := {
    | exist _ false _ := Ok total_swa_time
    | exist _ true Htest with inspect (wave_step i total_swa_time) := {
        | exist _ (Ok (i', total')) Hstep := scan i' total'
        | exist _ (Raise e) _ := Raise e } }.
Proof.
  (* the cursor has moved forward, and was short of the end *)
  assert (Hadv : (i < i')%nat).
  { unfold wave_step in Hstep.
    destruct (getitem zero_crossings i) as [s|]; simpl in Hstep;
      [|discriminate].
    destruct (getitem zero_crossings (i + 2)) as [e|]; simpl in Hstep;
      [|discriminate].
    destruct (length (candidate s e) <? 2)%nat.
    - injection Hstep; lia.
    - destruct (validate s e) as [[|]|]; simpl in Hstep;
        try discriminate; injection Hstep; lia. }
  unfold loop_test in Htest.
  apply Z.ltb_lt in Htest. lia.
Qed.

End Validator.

(** One entry of the result list: the dict with keys ["epoch"], ["stage"]
    and ["swa_percent"]. *)
Record epoch_result : Type := {
  epoch : Z;
  stage : string;
  swa_percent : Q
}.

(** A [for] loop that appends one entry per item, in order; an exception
    in the body leaves the loop and the function. *)
Fixpoint for_append {A B : Type} (body : A -> exc B) (items : list A)
  : exc (list B) :=
  match items with
  | [] => Ok []
  | x :: rest =>
      r <- body x ;;
      rs <- for_append body rest ;;
      Ok (r :: rs)
  end.

Section Scorer.

(** [scipy.signal.firwin(numtaps, cutoff, pass_zero=...)]: the taps of the
    band-pass filter, or the exception scipy raises. *)
Variable firwin : nat -> list Q -> bool -> exc (list Q).

(** [scipy.signal.filtfilt(b, a, x)]: the filtered signal, or the
    exception scipy raises. *)
Variable filtfilt : list Q -> Q -> list Q -> exc (list Q).

Definition score_n3_epoch (eeg_signal : list Q) (fs epoch_duration : pynum)
  : exc Q :=
  (* Step 0 *)
  usable <- check_signal_quality eeg_signal fs ;;
  if negb usable then Ok 0.0
  else
    (* Step 1 *)
    let nyquist := 0.5 * to_float fs in
    let numtaps := 366%nat in
    low <- truediv 0.5 nyquist ;;
    high <- truediv 2.0 nyquist ;;
    fir_coeffs <- firwin numtaps [low; high] false ;;
    eeg_filtered <- filtfilt fir_coeffs 1.0 eeg_signal ;;
    (* Step 2 *)
    let zero_crossings := Np.where_ (Np.diff (Np.sign eeg_filtered)) in
    (* Steps 3 and 4 *)
    total_swa_time <- scan eeg_filtered zero_crossings (to_float fs) 0 0.0 ;;
    (* Step 5: a zero [epoch_duration] raises when the total is still the
       Python float 0.0; once a duration has been added the total is a
       numpy float and the quotient would be inf, which no rational is:
       the model raises there as well. *)
    ratio <- truediv total_swa_time (to_float epoch_duration) ;;
    Ok (ratio * 100).

(* =================================================================== *)
(** * Whole-recording scoring (lines 115-149) *)
(* =================================================================== *)

(** The body of the [for] loop (lines 132-147) at epoch index [i]. *)
Definition score_one (eeg_signal : list Q) (fs epoch_duration : pynum)
    (samples_per_epoch : pynum) (i : Z) : exc epoch_result :=
  let start := Py.mul (PyInt i) samples_per_epoch in
  let end_ := Py.add start samples_per_epoch in
  lo <- Py.index start ;;
  hi <- Py.index end_ ;;
  let epoch_signal := Py.slice eeg_signal lo hi in
  swa <- score_n3_epoch epoch_signal fs epoch_duration ;;
  let stage := if Qleb 20.0 swa then "N3"%string else "Not N3"%string in
  Ok {| epoch := i; stage := stage; swa_percent := swa |}.

Definition score_n3_epochs (eeg_signal : list Q) (fs epoch_duration : pynum)
  : exc (list epoch_result) :=
  let samples_per_epoch := Py.mul epoch_duration fs in
  num_epochs <-
    Py.floordiv (PyInt (Z.of_nat (length eeg_signal))) samples_per_epoch ;;
  indices <- Py.range num_epochs ;;
  for_append (score_one eeg_signal fs epoch_duration samples_per_epoch)
             indices.

End Scorer.

(** Two stand-ins for the scipy calls, used to run the model: taps that are
    never looked at and a filter that returns its input, and a pair that
    raises on every call. *)
Definition firwin_unit (numtaps : nat) (cutoff : list Q) (pass_zero : bool)
  : exc (list Q) := Ok [1].
Definition filtfilt_id (b : list Q) (a : Q) (x : list Q) : exc (list Q) :=
  Ok x.
Definition firwin_raises (numtaps : nat) (cutoff : list Q) (pass_zero : bool)
  : exc (list Q) := Raise ValueError.
Definition filtfilt_raises (b : list Q) (a : Q) (x : list Q) : exc (list Q) :=
  Raise ValueError.

(** A test recording: a clipped triangle wave, 16 samples to the period,
    84 peak to peak and never exactly zero. *)
Definition period : list Q :=
  [6; 18; 30; 42; 42; 30; 18; 6; -6; -18; -30; -42; -42; -30; -18; -6].

Definition triangle_wave (periods : nat) : list Q :=
  flat_map (fun _ => period) (seq 0 periods).

(* ===================================================================== *)
(** * Notions the properties are stated with *)
(* ===================================================================== *)

(** The [k]-th window of [samples_per_epoch] samples: epoch [k] of a
    recording cut into consecutive epochs. *)
Definition epoch_window (eeg_signal : list Q) (samples_per_epoch k : nat)
  : list Q :=
  firstn samples_per_epoch (skipn (k * samples_per_epoch) eeg_signal).

(** The three criteria of a slow wave on the window from sample
    [start_idx] to sample [end_idx]: peak-to-peak amplitude (largest minus
    smallest sample of the window) at least 75, duration within
    [0.5, 2.0] seconds, a sample above zero and a sample below zero. *)
Definition is_slow_wave (eeg_filtered : list Q) (fs : Q)
    (start_idx end_idx : nat) : Prop :=
  let w := candidate eeg_filtered start_idx end_idx in
  (exists hi lo : Q,
      (In hi w /\ Forall (fun x => x <= hi) w) /\
      (In lo w /\ Forall (fun x => lo <= x) w) /\
      75 <= hi - lo) /\
  (0.5 <= duration fs start_idx end_idx /\
   duration fs start_idx end_idx <= 2.0) /\
  (Exists (fun x => 0 < x) w /\ Exists (fun x => x < 0) w).

(** The number of crossings after position [i]. *)
Definition crossings_ahead (zero_crossings : list nat) (i : nat) : nat :=
  length zero_crossings - S i.

(** The scan as a cursor over the crossings: [scan_run i accepted] is a
    run from position [i] to the end, [accepted] listing the windows it
    accepts, in order.  It stops with fewer than 2 crossings ahead; it
    moves on by 1 from a window that is too short or fails a criterion,
    and by 2 from a window it accepts. *)
Inductive scan_run (eeg_filtered : list Q) (zero_crossings : list nat)
    (fs : Q) : nat -> list (nat * nat) -> Prop :=
| run_stop (i : nat) :
    (crossings_ahead zero_crossings i < 2)%nat ->
    scan_run eeg_filtered zero_crossings fs i []
| run_skip (i s e : nat) (accepted : list (nat * nat)) :
    (2 <= crossings_ahead zero_crossings i)%nat ->
    nth_error zero_crossings i = Some s ->
    nth_error zero_crossings (i + 2) = Some e ->
    (length (candidate eeg_filtered s e) < 2)%nat \/
    ~ is_slow_wave eeg_filtered fs s e ->
    scan_run eeg_filtered zero_crossings fs (i + 1) accepted ->
    scan_run eeg_filtered zero_crossings fs i accepted
| run_accept (i s e : nat) (accepted : list (nat * nat)) :
    (2 <= crossings_ahead zero_crossings i)%nat ->
    nth_error zero_crossings i = Some s ->
    nth_error zero_crossings (i + 2) = Some e ->
    (2 <= length (candidate eeg_filtered s e))%nat ->
    is_slow_wave eeg_filtered fs s e ->
    scan_run eeg_filtered zero_crossings fs (i + 2) accepted ->
    scan_run eeg_filtered zero_crossings fs i ((s, e) :: accepted).

(** The durations of a list of windows, added to [total] in order. *)
Definition add_durations (fs : Q) (total : Q) (windows : list (nat * nat))
  : Q :=
  fold_left Qplus (map (fun w => duration fs (fst w) (snd w)) windows) total.

(** The number of samples a list of windows covers, window by window. *)
Definition span (windows : list (nat * nat)) : Z :=
  fold_right (fun w z => (Z.of_nat (snd w) - Z.of_nat (fst w) + z)%Z) 0%Z
    windows.

(* ===================================================================== *)
(** * Basic facts: comparisons, the error monad, the loop *)
(* ===================================================================== *)

Lemma Qltb_lt (x y : Q) : Qltb x y = true <-> x < y.
Proof.
  unfold Qltb. rewrite Qlt_alt.
  destruct (x ?= y); split; congruence.
Qed.

Lemma Qltb_ge (x y : Q) : Qltb x y = false <-> y <= x.
Proof.
  rewrite <- not_true_iff_false, Qltb_lt. split.
  - apply Qnot_lt_le.
  - apply Qle_not_lt.
Qed.

Lemma Qleb_le (x y : Q) : Qleb x y = true <-> x <= y.
Proof. apply Qle_bool_iff. Qed.

Lemma Qleb_gt (x y : Q) : Qleb x y = false <-> y < x.
Proof.
  rewrite <- not_true_iff_false, Qleb_le. split.
  - apply Qnot_le_lt.
  - apply Qlt_not_le.
Qed.

Lemma bind_Ok {A B : Type} (c : exc A) (k : A -> exc B) (b : B) :
  Py.bind c k = Ok b -> exists a, c = Ok a /\ k a = Ok b.
Proof.
  destruct c as [a|e]; simpl; [|discriminate].
  intros H. exists a. split; [reflexivity | exact H].
Qed.

(** The loop, unfolded once. *)
Lemma scan_once (eeg_filtered : list Q) (zero_crossings : list nat) (fs : Q)
    (i : nat) (total : Q) :
  scan eeg_filtered zero_crossings fs i total =
  if loop_test zero_crossings i
  then match wave_step eeg_filtered zero_crossings fs i total with
       | Ok (i', total') => scan eeg_filtered zero_crossings fs i' total'
       | Raise e => Raise e
       end
  else Ok total.
Proof.
  funelim (scan eeg_filtered zero_crossings fs i total).
  all: try rewrite <- Heqcall.
  all: match goal with H : loop_test _ _ = _ |- _ => rewrite H end.
  all: try match goal with H : wave_step _ _ _ _ _ = _ |- _ => rewrite H end.
  all: reflexivity.
Qed.

Lemma maximum_cases (x y : Q) :
  (Np.maximum x y = x \/ Np.maximum x y = y) /\
  x <= Np.maximum x y /\ y <= Np.maximum x y.
Proof.
  unfold Np.maximum. destruct (Qltb x y) eqn:H.
  - apply Qltb_lt in H. repeat split; auto using Qlt_le_weak, Qle_refl.
  - apply Qltb_ge in H. repeat split; auto using Qle_refl.
Qed.

Lemma minimum_cases (x y : Q) :
  (Np.minimum x y = x \/ Np.minimum x y = y) /\
  Np.minimum x y <= x /\ Np.minimum x y <= y.
Proof.
  unfold Np.minimum. destruct (Qltb y x) eqn:H.
  - apply Qltb_lt in H. repeat split; auto using Qlt_le_weak, Qle_refl.
  - apply Qltb_ge in H. repeat split; auto using Qle_refl.
Qed.

(** [np.max] of a non-empty array is one of its entries and bounds them
    all. *)
Lemma fold_maximum_spec (r : list Q) : forall x : Q,
  In (fold_left Np.maximum r x) (x :: r) /\
  Forall (fun y => y <= fold_left Np.maximum r x) (x :: r).
Proof.
  induction r as [|y r IH]; intros x; simpl.
  - split; [left; reflexivity | repeat constructor; apply Qle_refl].
  - destruct (IH (Np.maximum x y)) as [Hin Hall].
    destruct (maximum_cases x y) as [Hc [Hx Hy]].
    inversion Hall as [|? ? Hm Hr]; subst. split.
    + destruct Hin as [Hin|Hin]; [|right; right; exact Hin].
      rewrite <- Hin. destruct Hc as [-> | ->]; auto.
    + repeat constructor; try exact Hr; eapply Qle_trans; eassumption.
Qed.

Lemma fold_minimum_spec (r : list Q) : forall x : Q,
  In (fold_left Np.minimum r x) (x :: r) /\
  Forall (fun y => fold_left Np.minimum r x <= y) (x :: r).
Proof.
  induction r as [|y r IH]; intros x; simpl.
  - split; [left; reflexivity | repeat constructor; apply Qle_refl].
  - destruct (IH (Np.minimum x y)) as [Hin Hall].
    destruct (minimum_cases x y) as [Hc [Hx Hy]].
    inversion Hall as [|? ? Hm Hr]; subst. split.
    + destruct Hin as [Hin|Hin]; [|right; right; exact Hin].
      rewrite <- Hin. destruct Hc as [-> | ->]; auto.
    + repeat constructor; try exact Hr; eapply Qle_trans; eassumption.
Qed.

Lemma np_max_spec (a : list Q) :
  a <> [] ->
  exists m, Np.max a = Ok m /\ In m a /\ Forall (fun y => y <= m) a.
Proof.
  destruct a as [|x r]; [congruence|]. intros _.
  exists (fold_left Np.maximum r x). split; [reflexivity|].
  apply fold_maximum_spec.
Qed.

Lemma np_min_spec (a : list Q) :
  a <> [] ->
  exists m, Np.min a = Ok m /\ In m a /\ Forall (fun y => m <= y) a.
Proof.
  destruct a as [|x r]; [congruence|]. intros _.
  exists (fold_left Np.minimum r x). split; [reflexivity|].
  apply fold_minimum_spec.
Qed.

(** The flat-line test of line 30: the largest absolute value is zero
    exactly when every sample is. *)
Lemma peak_zero_iff (signal : list Q) (peak : Q) :
  Np.max (Np.abs signal) = Ok peak ->
  (peak == 0 <-> Forall (fun x => x == 0) signal).
Proof.
  intros Hmax.
  assert (Hne : Np.abs signal <> []).
  { intros E. rewrite E in Hmax. discriminate. }
  destruct (np_max_spec Hne) as [m [Hm [Hin Hall]]].
  rewrite Hmax in Hm. injection Hm as <-.
  unfold Np.abs in *. split.
  - intros Hz. apply Forall_forall. intros x Hx.
    rewrite Forall_forall in Hall.
    specialize (Hall (Qabs x) (in_map Qabs _ _ Hx)).
    rewrite Hz in Hall.
    apply Qabs_Qle_condition in Hall. destruct Hall as [H1 H2].
    apply Qle_antisym; [exact H2 | exact H1].
  - intros Hz. apply in_map_iff in Hin. destruct Hin as [x [Hx Hxin]].
    rewrite Forall_forall in Hz. specialize (Hz x Hxin).
    rewrite <- Hx, Hz. reflexivity.
Qed.

Lemma for_append_In {A B : Type} (body : A -> exc B) (items : list A) :
  forall results r,
    for_append body items = Ok results -> In r results ->
    exists x, In x items /\ body x = Ok r.
Proof.
  induction items as [|x rest IH]; simpl; intros results r H Hin.
  - injection H as <-. destruct Hin.
  - apply bind_Ok in H. destruct H as [r0 [Hr0 H]].
    apply bind_Ok in H. destruct H as [rs [Hrs H]].
    injection H as <-. destruct Hin as [<- | Hin].
    + exists x. auto.
    + destruct (IH rs r Hrs Hin) as [y [Hy Hb]]. exists y. auto.
Qed.

(* ===================================================================== *)
(** * The signal quality gate *)
(* ===================================================================== *)

(** numpy's variance divides by the number of samples: the variance of
    [1, 3] is 1 (dividing by N-1 would give 2). *)
Example var_divides_by_N : Np.var [1; 3] == 1.
Proof. reflexivity. Qed.

(** Lines 28-31: too short, or flat. *)
Lemma gate_rejects_short_or_flat (signal : list Q) (fs : pynum) :
  (length signal < 2)%nat \/ Forall (fun x => x == 0) signal ->
  check_signal_quality signal fs = Ok false.
Proof.
  intros H. unfold check_signal_quality.
  destruct (length signal <? 2)%nat eqn:Hlen; [reflexivity|].
  apply Nat.ltb_ge in Hlen.
  destruct H as [Hshort | Hzero]; [lia|].
  assert (Hne : Np.abs signal <> []).
  { unfold Np.abs. destruct signal; simpl in *; [lia | discriminate]. }
  destruct (np_max_spec Hne) as [peak [Hpeak _]].
  rewrite Hpeak. simpl.
  apply (peak_zero_iff signal Hpeak) in Hzero.
  apply Qeq_bool_iff in Hzero. rewrite Hzero. reflexivity.
Qed.

(** C10.  The verdict of [check_signal_quality] does not depend on the
    sampling rate: two calls on the same signal with any two rates give the
    same outcome. *)
Theorem check_signal_quality_ignores_fs (signal : list Q) (fs1 fs2 : pynum) :
  check_signal_quality signal fs1 = check_signal_quality signal fs2.
Proof. reflexivity. Qed.

(** C4.  [check_signal_quality] returns [False] for a signal with fewer than
    2 samples or with every sample zero.  Otherwise it returns a boolean
    [b]: with signal power the variance of the samples and noise power the
    variance of their first difference, [b] is true exactly when the signal
    power exceeds 0.1 if the noise power is zero, and exactly when signal
    power / noise power exceeds 5.0 if it is not. *)
Theorem check_signal_quality_decides (signal : list Q) (fs : pynum) :
  let signal_power := Np.var signal in
  let noise_power := Np.var (Np.diff signal) in
  ((length signal < 2)%nat \/ Forall (fun x => x == 0) signal ->
   check_signal_quality signal fs = Ok false) /\
  ((2 <= length signal)%nat -> ~ Forall (fun x => x == 0) signal ->
   exists b : bool,
     check_signal_quality signal fs = Ok b /\
     (noise_power == 0 -> (b = true <-> 0.1 < signal_power)) /\
     (~ noise_power == 0 ->
      (b = true <-> 5.0 < signal_power / noise_power))).
Proof.
  intros signal_power noise_power.
  split; [apply gate_rejects_short_or_flat|].
  intros Hlen Hnz. unfold check_signal_quality.
  apply Nat.ltb_ge in Hlen. rewrite Hlen. apply Nat.ltb_ge in Hlen.
  assert (Hne : Np.abs signal <> []).
  { unfold Np.abs. destruct signal; simpl in *; [lia | discriminate]. }
  destruct (np_max_spec Hne) as [peak [Hpeak _]].
  rewrite Hpeak. simpl.
  pose proof (peak_zero_iff signal Hpeak) as Hflat.
  destruct (Qeq_bool peak 0) eqn:Hz.
  { apply Qeq_bool_iff in Hz. exfalso. apply Hnz, Hflat, Hz. }
  fold signal_power noise_power.
  destruct (Qeq_bool noise_power 0) eqn:Hn.
  - apply Qeq_bool_iff in Hn.
    exists (Qltb 0.1 signal_power). split; [reflexivity|]. split.
    + intros _. apply Qltb_lt.
    + intros Hc. contradiction.
  - exists (Qltb 5.0 (signal_power / noise_power)).
    split; [reflexivity|]. split.
    + intros Hc. apply Qeq_bool_iff in Hc. congruence.
    + intros _. apply Qltb_lt.
Qed.

Lemma check_signal_quality_decides_witness :
  check_signal_quality [0; 0; 0] (PyInt 100) = Ok false /\
  exists b : bool,
    check_signal_quality (triangle_wave 3) (PyInt 16) = Ok b /\
    (Np.var (Np.diff (triangle_wave 3)) == 0 ->
     (b = true <-> 0.1 < Np.var (triangle_wave 3))) /\
    (~ Np.var (Np.diff (triangle_wave 3)) == 0 ->
     (b = true <->
      5.0 < Np.var (triangle_wave 3) / Np.var (Np.diff (triangle_wave 3)))).
Proof.
  split.
  - apply (proj1 (check_signal_quality_decides [0; 0; 0] (PyInt 100))).
    right. repeat constructor.
  - apply (proj2 (check_signal_quality_decides (triangle_wave 3) (PyInt 16))).
    + simpl. lia.
    + intros H. inversion H as [|x l Hx Hl]. discriminate Hx.
Defined.

(** C5.  A signal with fewer than 2 samples, or with every sample zero, is
    scored exactly 0.0 at any sampling rate, and more generally so is every
    signal the quality gate rejects.  The score is the same whatever
    [firwin] and [filtfilt] are, also when they raise on every call: the
    filter is not reached. *)
Theorem score_n3_epoch_rejected
    (firwin : nat -> list Q -> bool -> exc (list Q))
    (filtfilt : list Q -> Q -> list Q -> exc (list Q))
    (eeg_signal : list Q) (fs epoch_duration : pynum) :
  ((length eeg_signal < 2)%nat \/ Forall (fun x => x == 0) eeg_signal ->
   score_n3_epoch firwin filtfilt eeg_signal fs epoch_duration = Ok 0.0) /\
  (check_signal_quality eeg_signal fs = Ok false ->
   score_n3_epoch firwin filtfilt eeg_signal fs epoch_duration = Ok 0.0).
Proof.
  assert (Hgate : check_signal_quality eeg_signal fs = Ok false ->
                  score_n3_epoch firwin filtfilt eeg_signal fs epoch_duration
                  = Ok 0.0).
  { intros H. unfold score_n3_epoch. rewrite H. reflexivity. }
  split; [|exact Hgate].
  intros H. apply Hgate.
  apply gate_rejects_short_or_flat, H.
Qed.

Lemma score_n3_epoch_rejected_witness :
  score_n3_epoch firwin_raises filtfilt_raises [0; 0; 0] (PyInt 100) (PyInt 30)
  = Ok 0.0 /\
  score_n3_epoch firwin_raises filtfilt_raises [50; 50; -50; -50] (PyInt 4)
    (PyInt 1) = Ok 0.0.
Proof.
  split.
  - apply (proj1 (score_n3_epoch_rejected firwin_raises filtfilt_raises
                    [0; 0; 0] (PyInt 100) (PyInt 30))).
    right. repeat constructor.
  - apply (proj2 (score_n3_epoch_rejected firwin_raises filtfilt_raises
                    [50; 50; -50; -50] (PyInt 4) (PyInt 1))).
    reflexivity.
Defined.

(* ===================================================================== *)
(** * Stage labels *)
(* ===================================================================== *)

(** C1.  In every entry of the list [score_n3_epochs] returns, the stage is
    ["N3"] exactly when [swa_percent >= 20.0]; 20.0 itself is N3. *)
Theorem stage_N3_iff_threshold
    (firwin : nat -> list Q -> bool -> exc (list Q))
    (filtfilt : list Q -> Q -> list Q -> exc (list Q))
    (eeg_signal : list Q) (fs epoch_duration : pynum)
    (results : list epoch_result) :
  score_n3_epochs firwin filtfilt eeg_signal fs epoch_duration = Ok results ->
  forall r : epoch_result,
    In r results ->
    (stage r = "N3"%string <-> 20.0 <= swa_percent r).
Proof.
  unfold score_n3_epochs. intros H r Hin.
  apply bind_Ok in H. destruct H as [n [_ H]].
  apply bind_Ok in H. destruct H as [idx [_ H]].
  destruct (for_append_In _ _ r H Hin) as [i [_ Hi]].
  unfold score_one in Hi.
  apply bind_Ok in Hi. destruct Hi as [lo [_ Hi]].
  apply bind_Ok in Hi. destruct Hi as [hi [_ Hi]].
  apply bind_Ok in Hi. destruct Hi as [swa [_ Hi]].
  injection Hi as <-. simpl.
  destruct (Qleb 20.0 swa) eqn:Hc.
  - apply Qleb_le in Hc. split; [intros _; exact Hc | reflexivity].
  - apply Qleb_gt in Hc. split; [discriminate|].
    intros Hle. exfalso. apply (Qlt_not_le _ _ Hc Hle).
Qed.

Lemma stage_N3_iff_threshold_witness :
  let r := {| epoch := 1; stage := "N3"; swa_percent := 512000 # 7680 |} in
  score_n3_epochs firwin_unit filtfilt_id (triangle_wave 7) (PyInt 16)
    (PyInt 3)
  = Ok [ {| epoch := 0; stage := "N3"; swa_percent := 512000 # 7680 |}; r ] /\
  (stage r = "N3"%string <-> 20.0 <= swa_percent r).
Proof.
  intros r.
  assert (H : score_n3_epochs firwin_unit filtfilt_id (triangle_wave 7)
                (PyInt 16) (PyInt 3)
              = Ok [ {| epoch := 0; stage := "N3";
                        swa_percent := 512000 # 7680 |}; r ]).
  { vm_compute. reflexivity. }
  split; [exact H|].
  apply (stage_N3_iff_threshold _ _ _ _ _ H).
  right. left. reflexivity.
Defined.

(* ===================================================================== *)
(** * Arguments that are not checked *)
(* ===================================================================== *)

(** C6, as the claim has it, fails: an empty signal at 100 Hz, and a flat
    signal at a sampling rate of 0 or of -5, are scored 0.0 with no
    exception, even when the filter would raise if it were called. *)
Lemma score_n3_epoch_invalid_input_scored_zero :
  score_n3_epoch firwin_raises filtfilt_raises [] (PyInt 100) (PyInt 30)
  = Ok 0.0 /\
  score_n3_epoch firwin_raises filtfilt_raises [0; 0; 0] (PyInt 0) (PyInt 30)
  = Ok 0.0 /\
  score_n3_epoch firwin_raises filtfilt_raises [0; 0; 0] (PyInt (-5))
    (PyInt 30) = Ok 0.0 /\
  ~ (forall (eeg_signal : list Q) (fs epoch_duration : pynum),
        eeg_signal = [] \/ to_float fs <= 0 ->
        exists e : exception,
          score_n3_epoch firwin_raises filtfilt_raises eeg_signal fs
            epoch_duration = Raise e).
Proof.
  split; [reflexivity|]. split; [reflexivity|]. split; [reflexivity|].
  intros Hclaim.
  destruct (Hclaim [] (PyInt 100) (PyInt 30) (or_introl eq_refl)) as [e He].
  discriminate He.
Qed.

(** C6, amended.  [score_n3_epoch] does not check its arguments.  An empty
    signal is scored 0.0 with no exception at every sampling rate, also a
    rate <= 0.  When the quality gate accepts the signal, a sampling rate
    of 0 raises [ZeroDivisionError] (line 70), and at any other rate an
    exception raised by [firwin] reaches the caller. *)
Theorem score_n3_epoch_unchecked_input
    (firwin : nat -> list Q -> bool -> exc (list Q))
    (filtfilt : list Q -> Q -> list Q -> exc (list Q))
    (eeg_signal : list Q) (fs epoch_duration : pynum) :
  (eeg_signal = [] ->
   score_n3_epoch firwin filtfilt eeg_signal fs epoch_duration = Ok 0.0) /\
  (check_signal_quality eeg_signal fs = Ok true ->
   (to_float fs == 0 ->
    score_n3_epoch firwin filtfilt eeg_signal fs epoch_duration
    = Raise ZeroDivisionError) /\
   (~ to_float fs == 0 ->
    forall e : exception,
      firwin 366%nat
        [0.5 / (0.5 * to_float fs); 2.0 / (0.5 * to_float fs)] false
      = Raise e ->
      score_n3_epoch firwin filtfilt eeg_signal fs epoch_duration
      = Raise e)).
Proof.
  split.
  - intros ->. reflexivity.
  - intros Hgate. unfold score_n3_epoch. rewrite Hgate. simpl.
    unfold truediv.
    destruct (Qeq_bool (0.5 * to_float fs) 0) eqn:Hz.
    + split; [reflexivity|].
      intros Hnz. exfalso. apply Hnz.
      apply Qeq_bool_iff in Hz. lra.
    + split.
      * intros Hfs. exfalso.
        assert (E : 0.5 * to_float fs == 0) by (rewrite Hfs; reflexivity).
        apply Qeq_bool_iff in E. congruence.
      * intros _ e He. simpl. rewrite He. reflexivity.
Qed.

Lemma score_n3_epoch_unchecked_input_witness :
  score_n3_epoch firwin_raises filtfilt_raises [] (PyInt 0) (PyInt 30)
  = Ok 0.0 /\
  score_n3_epoch firwin_unit filtfilt_id (triangle_wave 3) (PyInt 0) (PyInt 3)
  = Raise ZeroDivisionError /\
  score_n3_epoch firwin_raises filtfilt_id (triangle_wave 3) (PyInt (-16))
    (PyInt 3) = Raise ValueError.
Proof.
  split; [|split].
  - apply (proj1 (score_n3_epoch_unchecked_input firwin_raises filtfilt_raises
                    [] (PyInt 0) (PyInt 30))).
    reflexivity.
  - refine (proj1 (proj2 (score_n3_epoch_unchecked_input firwin_unit
                            filtfilt_id (triangle_wave 3) (PyInt 0) (PyInt 3))
                     _) _).
    + vm_compute. reflexivity.
    + reflexivity.
  - refine (proj2 (proj2 (score_n3_epoch_unchecked_input firwin_raises
                            filtfilt_id (triangle_wave 3) (PyInt (-16))
                            (PyInt 3)) _) _ ValueError _).
    + vm_compute. reflexivity.
    + intros H. discriminate H.
    + reflexivity.
Defined.

(** C9, as the claim has it, fails: at fs = 16.5 the recording that yields
    two epochs at fs = 16 yields none; the call raises [TypeError]. *)
Lemma score_n3_epochs_fractional_fs_raises :
  score_n3_epochs firwin_unit filtfilt_id (triangle_wave 7) (PyFloat 16.5)
    (PyInt 3) = Raise TypeError /\
  (exists results,
      score_n3_epochs firwin_unit filtfilt_id (triangle_wave 7) (PyInt 16)
        (PyInt 3) = Ok results /\ length results = 2%nat) /\
  ~ (exists results,
        score_n3_epochs firwin_unit filtfilt_id (triangle_wave 7)
          (PyFloat 16.5) (PyInt 3) = Ok results /\
        length results
        = Z.to_nat (Z.of_nat (length (triangle_wave 7)) / (3 * 16))).
Proof.
  assert (H : score_n3_epochs firwin_unit filtfilt_id (triangle_wave 7)
                (PyFloat 16.5) (PyInt 3) = Raise TypeError)
    by (vm_compute; reflexivity).
  split; [exact H|]. split.
  - eexists. split; [vm_compute; reflexivity | reflexivity].
  - intros [results [Hres _]]. rewrite H in Hres. discriminate Hres.
Qed.

(** C9, amended.  [score_n3_epochs] computes [samples_per_epoch] as
    [epoch_duration * fs] and truncates nothing.  When [fs] is a float,
    fractional or whole, the product and [num_epochs] are floats and the
    call raises before any epoch is scored: [ZeroDivisionError] when the
    product is zero, [TypeError] (at [range(num_epochs)]) otherwise. *)
Theorem score_n3_epochs_float_fs
    (firwin : nat -> list Q -> bool -> exc (list Q))
    (filtfilt : list Q -> Q -> list Q -> exc (list Q))
    (eeg_signal : list Q) (q : Q) (epoch_duration : pynum) :
  Py.mul epoch_duration (PyFloat q) = PyFloat (to_float epoch_duration * q) /\
  score_n3_epochs firwin filtfilt eeg_signal (PyFloat q) epoch_duration =
  if Qeq_bool (to_float epoch_duration * q) 0
  then Raise ZeroDivisionError
  else Raise TypeError.
Proof.
  assert (Hmul : Py.mul epoch_duration (PyFloat q)
                 = PyFloat (to_float epoch_duration * q)).
  { destruct epoch_duration; reflexivity. }
  split; [exact Hmul|].
  unfold score_n3_epochs. rewrite Hmul. simpl.
  destruct (Qeq_bool (to_float epoch_duration * q) 0); reflexivity.
Qed.

(* ===================================================================== *)
(** * Segmentation into epochs *)
(* ===================================================================== *)

Lemma clip_inside (len : nat) (k : Z) :
  (0 <= k <= Z.of_nat len)%Z -> Py.clip len k = Z.to_nat k.
Proof.
  intros [H0 H1]. unfold Py.clip.
  destruct (k <? 0)%Z eqn:E.
  - apply Z.ltb_lt in E. lia.
  - lia.
Qed.

(** The slice of line 134 is the window of the epoch, as long as the epoch
    lies inside the recording. *)
Lemma slice_is_window (eeg_signal : list Q) (spe : Z) (k : nat) :
  (0 < spe)%Z ->
  ((Z.of_nat k + 1) * spe <= Z.of_nat (length eeg_signal))%Z ->
  Py.slice eeg_signal (Z.of_nat k * spe) (Z.of_nat k * spe + spe)
  = epoch_window eeg_signal (Z.to_nat spe) k.
Proof.
  intros Hspe Hin. unfold Py.slice, epoch_window.
  rewrite !clip_inside by nia.
  replace (Z.to_nat (Z.of_nat k * spe + spe) - Z.to_nat (Z.of_nat k * spe))%nat
    with (Z.to_nat spe) by nia.
  replace (Z.to_nat (Z.of_nat k * spe)) with (k * Z.to_nat spe)%nat by nia.
  reflexivity.
Qed.

Lemma window_length (eeg_signal : list Q) (spe k : nat) :
  ((k + 1) * spe <= length eeg_signal)%nat ->
  length (epoch_window eeg_signal spe k) = spe.
Proof.
  intros H. unfold epoch_window.
  rewrite length_firstn, length_skipn. nia.
Qed.

Lemma firstn_plus {A : Type} (m p : nat) (a : list A) :
  firstn (m + p) a = firstn m a ++ firstn p (skipn m a).
Proof.
  revert a. induction m as [|m IH]; intros a; simpl.
  - reflexivity.
  - destruct a as [|x a]; simpl.
    + rewrite firstn_nil. reflexivity.
    + rewrite IH. reflexivity.
Qed.

(** Consecutive windows do not overlap and leave no gap: the first [n] of
    them, end to end, are the first [n * spe] samples. *)
Lemma windows_tile (eeg_signal : list Q) (spe n : nat) :
  concat (map (epoch_window eeg_signal spe) (seq 0 n))
  = firstn (n * spe) eeg_signal.
Proof.
  induction n as [|n IH].
  - reflexivity.
  - rewrite seq_S, map_app, concat_app, IH. simpl.
    rewrite app_nil_r. unfold epoch_window.
    rewrite <- firstn_plus. f_equal. lia.
Qed.

Lemma for_append_Forall2 {A B : Type} (body : A -> exc B)
    (P : A -> B -> Prop) (items : list A) :
  (forall x, In x items -> exists r, body x = Ok r /\ P x r) ->
  exists results,
    for_append body items = Ok results /\ Forall2 P items results.
Proof.
  induction items as [|x rest IH]; intros H; simpl.
  - exists []. split; [reflexivity | constructor].
  - destruct (H x (or_introl eq_refl)) as [r [Hr HP]].
    destruct IH as [rs [Hrs HF]].
    { intros y Hy. apply H. right. exact Hy. }
    exists (r :: rs). rewrite Hr, Hrs. simpl.
    split; [reflexivity | constructor; assumption].
Qed.

Lemma Forall2_map_fst {A B : Type} (g : B -> A) (P : A -> B -> Prop)
    (items : list A) (results : list B) :
  (forall x r, P x r -> g r = x) ->
  Forall2 P items results -> map g results = items.
Proof.
  intros Hg HF. induction HF as [|x r xs rs HP _ IH]; simpl.
  - reflexivity.
  - rewrite (Hg _ _ HP), IH. reflexivity.
Qed.

Lemma Forall2_nth_error {A B : Type} (P : A -> B -> Prop)
    (items : list A) (results : list B) :
  Forall2 P items results ->
  forall k r, nth_error results k = Some r ->
              exists x, nth_error items k = Some x /\ P x r.
Proof.
  intros HF. induction HF as [|x r0 xs rs HP _ IH]; intros k r Hk.
  - destruct k; discriminate.
  - destruct k as [|k]; simpl in *.
    + injection Hk as <-. exists x. auto.
    + apply IH. exact Hk.
Qed.

Lemma nth_error_range (n k : nat) (i : Z) :
  nth_error (map Z.of_nat (seq 0 n)) k = Some i ->
  i = Z.of_nat k /\ (k < n)%nat.
Proof.
  intros H.
  assert (Hk : (k < n)%nat).
  { assert (Hs : nth_error (map Z.of_nat (seq 0 n)) k <> None)
      by congruence.
    apply nth_error_Some in Hs.
    rewrite length_map, length_seq in Hs. exact Hs. }
  split; [|exact Hk].
  rewrite nth_error_map, nth_error_seq in H.
  apply Nat.ltb_lt in Hk. rewrite Hk in H. simpl in H. congruence.
Qed.

(** With int arguments, one pass of the [for] loop at an epoch inside the
    recording scores the window of that epoch and labels it. *)
Lemma score_one_window
    (firwin : nat -> list Q -> bool -> exc (list Q))
    (filtfilt : list Q -> Q -> list Q -> exc (list Q))
    (eeg_signal : list Q) (f d : Z) (k : nat) (swa : Q) :
  (0 < d * f)%Z ->
  ((Z.of_nat k + 1) * (d * f) <= Z.of_nat (length eeg_signal))%Z ->
  score_n3_epoch firwin filtfilt
    (epoch_window eeg_signal (Z.to_nat (d * f)) k) (PyInt f) (PyInt d)
  = Ok swa ->
  exists r,
    score_one firwin filtfilt eeg_signal (PyInt f) (PyInt d) (PyInt (d * f))
      (Z.of_nat k) = Ok r /\
    epoch r = Z.of_nat k /\ swa_percent r = swa.
Proof.
  intros Hspe Hin Hswa. unfold score_one. simpl.
  rewrite slice_is_window by assumption.
  rewrite Hswa. simpl. eexists. split; [reflexivity|]. split; reflexivity.
Qed.

(** C8.  For int [fs] and [epoch_duration] with
    [samples_per_epoch = epoch_duration * fs > 0], and as long as scoring
    the single epochs raises nothing, [score_n3_epochs] returns exactly
    [len(signal) // samples_per_epoch] entries.  Their epoch indices are
    0, 1, ..., in this order; entry [k] holds the score of the [k]-th window
    of [samples_per_epoch] samples; the windows are consecutive, without
    overlap or gap, and cover a prefix of the recording, so that what is
    left after the last full epoch is dropped with no exception.  A
    recording of [3 * samples_per_epoch] samples gives the indices 0, 1, 2;
    one of [3 * samples_per_epoch + 5] samples gives 3 entries (the 5
    samples being short of an epoch); one shorter than an epoch gives the
    empty list. *)
Theorem score_n3_epochs_segmentation
    (firwin : nat -> list Q -> bool -> exc (list Q))
    (filtfilt : list Q -> Q -> list Q -> exc (list Q))
    (eeg_signal : list Q) (f d : Z) :
  let samples_per_epoch := (d * f)%Z in
  let len := Z.of_nat (length eeg_signal) in
  let num_epochs := Z.to_nat (len / samples_per_epoch) in
  let window := epoch_window eeg_signal (Z.to_nat samples_per_epoch) in
  (0 < samples_per_epoch)%Z ->
  (forall k, (k < num_epochs)%nat ->
             exists swa, score_n3_epoch firwin filtfilt (window k)
                           (PyInt f) (PyInt d) = Ok swa) ->
  exists results,
    score_n3_epochs firwin filtfilt eeg_signal (PyInt f) (PyInt d)
    = Ok results /\
    length results = num_epochs /\
    map epoch results = map Z.of_nat (seq 0 num_epochs) /\
    (forall k r,
        nth_error results k = Some r ->
        epoch r = Z.of_nat k /\
        length (window k) = Z.to_nat samples_per_epoch /\
        score_n3_epoch firwin filtfilt (window k) (PyInt f) (PyInt d)
        = Ok (swa_percent r)) /\
    concat (map window (seq 0 num_epochs))
    = firstn (num_epochs * Z.to_nat samples_per_epoch) eeg_signal /\
    (len = 3 * samples_per_epoch -> map epoch results = [0; 1; 2])%Z /\
    (len = 3 * samples_per_epoch + 5 -> 5 < samples_per_epoch ->
     length results = 3%nat)%Z /\
    (len < samples_per_epoch -> results = [])%Z.
Proof.
  intros spe len n window Hspe Hscore.
  assert (Hfit : forall k, (k < n)%nat -> ((Z.of_nat k + 1) * spe <= len)%Z).
  { intros k Hk. subst n.
    pose proof (Z.mul_div_le len spe Hspe) as Hle.
    assert (Hn : (0 <= len / spe)%Z) by (apply Z.div_pos; lia).
    nia. }
  set (P := fun (i : Z) (r : epoch_result) =>
              epoch r = i /\
              score_n3_epoch firwin filtfilt (window (Z.to_nat i))
                (PyInt f) (PyInt d) = Ok (swa_percent r)).
  destruct (@for_append_Forall2 _ _
              (score_one firwin filtfilt eeg_signal (PyInt f) (PyInt d)
                 (PyInt spe)) P (map Z.of_nat (seq 0 n)))
    as [results [Hres HF]].
  { intros i Hi. apply in_map_iff in Hi. destruct Hi as [k [<- Hk]].
    apply in_seq in Hk.
    destruct (Hscore k) as [swa Hswa]; [lia|].
    destruct (@score_one_window firwin filtfilt eeg_signal f d k swa)
      as [r [Hr [He Hs]]]; auto.
    { apply Hfit. lia. }
    exists r. split; [exact Hr|]. unfold P.
    rewrite Nat2Z.id, Hs. auto. }
  assert (Hlen : length results = n).
  { rewrite <- (Forall2_length HF), length_map, length_seq. reflexivity. }
  assert (Hmap : map epoch results = map Z.of_nat (seq 0 n)).
  { apply (Forall2_map_fst epoch (P := P)); [|exact HF].
    intros x r [Hx _]. exact Hx. }
  exists results. split; [|split; [exact Hlen|split; [exact Hmap|split]]].
  - unfold score_n3_epochs. simpl. fold spe.
    destruct (Z.eqb_spec spe 0) as [E|_]; [lia|]. simpl.
    fold len. fold n. exact Hres.
  - intros k r Hk.
    destruct (Forall2_nth_error HF k Hk) as [i [Hi [He Hs]]].
    apply nth_error_range in Hi. destruct Hi as [-> Hkn].
    rewrite Nat2Z.id in Hs. split; [exact He|]. split; [|exact Hs].
    apply window_length. specialize (Hfit k Hkn). subst len. nia.
  - split; [apply windows_tile|]. split; [|split].
    + intros E. rewrite Hmap. subst n. rewrite E.
      rewrite Z.div_mul by lia. reflexivity.
    + intros E H5. rewrite Hlen. subst n. rewrite E.
      rewrite Z.div_add_l by lia.
      rewrite Z.div_small by lia. reflexivity.
    + intros Hshort.
      assert (E : n = 0%nat).
      { subst n. rewrite Z.div_small by (subst len; lia). reflexivity. }
      rewrite E in Hlen. destruct results; [reflexivity | discriminate].
Qed.

Lemma score_n3_epochs_segmentation_witness :
  exists results,
    score_n3_epochs firwin_unit filtfilt_id (triangle_wave 7) (PyInt 16)
      (PyInt 3) = Ok results /\
    length results = 2%nat /\
    map epoch results = [0; 1]%Z.
Proof.
  destruct (@score_n3_epochs_segmentation firwin_unit filtfilt_id
              (triangle_wave 7) 16 3) as [results [H1 [H2 [H3 _]]]].
  - reflexivity.
  - intros k Hk. cbv in Hk.
    destruct k as [|[|k]].
    + eexists. vm_compute. reflexivity.
    + eexists. vm_compute. reflexivity.
    + exfalso. lia.
  - exists results. split; [exact H1|]. split; [exact H2 | exact H3].
Defined.

(* ===================================================================== *)
(** * The wave validator *)
(* ===================================================================== *)

Lemma any_map_Exists (p : Q -> bool) (w : list Q) :
  Np.any (map p w) = true <-> Exists (fun x => p x = true) w.
Proof.
  unfold Np.any. rewrite existsb_exists, Exists_exists. split.
  - intros [b [Hb Ht]]. apply in_map_iff in Hb.
    destruct Hb as [x [Hx Hin]]. exists x. split; congruence.
  - intros [x [Hin Hx]]. exists (p x). split; [apply in_map; exact Hin|exact Hx].
Qed.

Lemma Exists_iff {A : Type} (P R : A -> Prop) (l : list A) :
  (forall x, P x <-> R x) -> (Exists P l <-> Exists R l).
Proof.
  intros H. rewrite !Exists_exists.
  split; intros [x [Hin Hx]]; exists x; split; auto; apply H; exact Hx.
Qed.

(** Two largest entries of a window are equal as numbers, and so are two
    smallest. *)
Lemma greatest_unique (w : list Q) (a b : Q) :
  In a w -> Forall (fun x => x <= a) w ->
  In b w -> Forall (fun x => x <= b) w -> a == b.
Proof.
  intros Ha Fa Hb Fb. rewrite Forall_forall in Fa, Fb.
  apply Qle_antisym; auto.
Qed.

Lemma least_unique (w : list Q) (a b : Q) :
  In a w -> Forall (fun x => a <= x) w ->
  In b w -> Forall (fun x => b <= x) w -> a == b.
Proof.
  intros Ha Fa Hb Fb. rewrite Forall_forall in Fa, Fb.
  apply Qle_antisym; auto.
Qed.

(** Steps 3a-3c compute the three criteria. *)
Lemma validate_spec (eeg_filtered : list Q) (fs : Q) (s e : nat) :
  (2 <= length (candidate eeg_filtered s e))%nat ->
  exists valid : bool,
    validate eeg_filtered fs s e = Ok valid /\
    (valid = true <-> is_slow_wave eeg_filtered fs s e).
Proof.
  intros Hlen. unfold validate, is_slow_wave.
  set (w := candidate eeg_filtered s e) in *.
  assert (Hne : w <> []) by (destruct w; simpl in *; [lia | discriminate]).
  destruct (np_max_spec Hne) as [hi [Hhi [Hhin Hhall]]].
  destruct (np_min_spec Hne) as [lo [Hlo [Hlin Hlall]]].
  rewrite Hhi, Hlo. simpl. eexists. split; [reflexivity|].
  rewrite !andb_true_iff, !Qleb_le, !any_map_Exists.
  rewrite (Exists_iff (fun x => Qltb 0 x = true) (fun x => 0 < x)
             w (fun x => Qltb_lt 0 x)).
  rewrite (Exists_iff (fun x => Qltb x 0 = true) (fun x => x < 0)
             w (fun x => Qltb_lt x 0)).
  split.
  - intros [[Hamp Hdur] Hsign]. split; [|split; assumption].
    exists hi, lo. auto.
  - intros [[hi' [lo' [[Hi1 Hi2] [[Hl1 Hl2] Hamp]]]] [Hdur Hsign]].
    split; [split|]; try assumption.
    rewrite (greatest_unique Hhin Hhall Hi1 Hi2).
    rewrite (least_unique Hlin Hlall Hl1 Hl2). exact Hamp.
Qed.

Lemma loop_test_ahead (zero_crossings : list nat) (i : nat) :
  loop_test zero_crossings i = true <->
  (2 <= crossings_ahead zero_crossings i)%nat.
Proof.
  unfold loop_test, crossings_ahead. rewrite Z.ltb_lt. lia.
Qed.

Lemma loop_test_stop (zero_crossings : list nat) (i : nat) :
  loop_test zero_crossings i = false <->
  (crossings_ahead zero_crossings i < 2)%nat.
Proof.
  unfold loop_test, crossings_ahead. rewrite Z.ltb_ge. lia.
Qed.

Lemma getitem_nth_error {A : Type} (a : list A) (i : nat) (x : A) :
  nth_error a i = Some x -> getitem a i = Ok x.
Proof. unfold getitem. intros ->. reflexivity. Qed.

(** With 2 crossings ahead, both bounds of the window exist. *)
Lemma bounds_exist (zero_crossings : list nat) (i : nat) :
  (2 <= crossings_ahead zero_crossings i)%nat ->
  exists s e, nth_error zero_crossings i = Some s /\
              nth_error zero_crossings (i + 2) = Some e.
Proof.
  unfold crossings_ahead. intros H.
  destruct (nth_error zero_crossings i) as [s|] eqn:Hs.
  - destruct (nth_error zero_crossings (i + 2)) as [e|] eqn:He.
    + exists s, e. auto.
    + apply nth_error_None in He. lia.
  - apply nth_error_None in Hs. lia.
Qed.

(** One pass through the loop body, case by case. *)
Lemma wave_step_spec (eeg_filtered : list Q) (zero_crossings : list nat)
    (fs : Q) (i : nat) (total : Q) (s e : nat) :
  nth_error zero_crossings i = Some s ->
  nth_error zero_crossings (i + 2) = Some e ->
  ((length (candidate eeg_filtered s e) < 2)%nat \/
   ~ is_slow_wave eeg_filtered fs s e ->
   wave_step eeg_filtered zero_crossings fs i total
   = Ok ((i + 1)%nat, total)) /\
  ((2 <= length (candidate eeg_filtered s e))%nat ->
   is_slow_wave eeg_filtered fs s e ->
   wave_step eeg_filtered zero_crossings fs i total
   = Ok ((i + 2)%nat, total + duration fs s e)).
Proof.
  intros Hs He. unfold wave_step.
  rewrite (getitem_nth_error _ _ Hs), (getitem_nth_error _ _ He). simpl.
  destruct (length (candidate eeg_filtered s e) <? 2)%nat eqn:Hlen.
  - apply Nat.ltb_lt in Hlen. split; [reflexivity | lia].
  - apply Nat.ltb_ge in Hlen.
    destruct (validate_spec eeg_filtered fs s e Hlen) as [valid [Hv Hiff]].
    rewrite Hv. simpl. destruct valid.
    + split.
      * intros [Hshort | Hno]; [lia|]. exfalso. apply Hno, Hiff. reflexivity.
      * reflexivity.
    + split; [reflexivity|].
      intros _ Hyes. apply Hiff in Hyes. discriminate.
Qed.

(** Whether a window is a slow wave can be decided: the loop body does. *)
Lemma is_slow_wave_dec (eeg_filtered : list Q) (fs : Q) (s e : nat) :
  (2 <= length (candidate eeg_filtered s e))%nat ->
  is_slow_wave eeg_filtered fs s e \/ ~ is_slow_wave eeg_filtered fs s e.
Proof.
  intros Hlen.
  destruct (validate_spec eeg_filtered fs s e Hlen) as [[|] [_ Hiff]].
  - left. apply Hiff. reflexivity.
  - right. intros H. apply Hiff in H. discriminate.
Qed.

(** C2.  For a candidate wave, the slice of the filtered signal from
    crossing [i] to crossing [i + 2], with at least 2 samples: the loop
    body adds its duration [(end_idx - start_idx) / fs] to the running
    total (and moves the cursor by 2) exactly when the three criteria
    hold: peak-to-peak amplitude at least 75, duration within [0.5, 2.0]
    seconds, a sample above zero and a sample below zero.  Otherwise the
    total is left as it is (and the cursor moves by 1). *)
Theorem wave_added_iff_criteria (eeg_filtered : list Q)
    (zero_crossings : list nat) (fs : Q) (i : nat) (total : Q)
    (start_idx end_idx : nat) :
  let candidate_wave := candidate eeg_filtered start_idx end_idx in
  let duration_sec := inject_Z (Z.of_nat end_idx - Z.of_nat start_idx) / fs in
  nth_error zero_crossings i = Some start_idx ->
  nth_error zero_crossings (i + 2) = Some end_idx ->
  (2 <= length candidate_wave)%nat ->
  (wave_step eeg_filtered zero_crossings fs i total
   = Ok ((i + 2)%nat, total + duration_sec)
   <-> is_slow_wave eeg_filtered fs start_idx end_idx) /\
  (wave_step eeg_filtered zero_crossings fs i total = Ok ((i + 1)%nat, total)
   <-> ~ is_slow_wave eeg_filtered fs start_idx end_idx).
Proof.
  intros w d Hs He Hlen.
  destruct (wave_step_spec eeg_filtered zero_crossings fs i total Hs He)
    as [Hrej Hacc].
  fold (duration fs start_idx end_idx) in d. subst d.
  destruct (is_slow_wave_dec eeg_filtered fs start_idx end_idx Hlen)
    as [Hyes | Hno].
  - rewrite (Hacc Hlen Hyes). split.
    + split; [intros _; exact Hyes | reflexivity].
    + split; [|intros Hno; contradiction].
      intros H. injection H as H _. lia.
  - rewrite (Hrej (or_intror Hno)). split.
    + split; [|intros Hyes; contradiction].
      intros H. injection H as H _. lia.
    + split; [intros _; exact Hno | reflexivity].
Qed.

Lemma wave_added_iff_criteria_witness :
  let zc := [7; 15; 23; 31; 39]%nat in
  (wave_step (triangle_wave 3) zc 16 0 0.0
   = Ok (2%nat, 0.0 + inject_Z (23 - 7) / 16)
   <-> is_slow_wave (triangle_wave 3) 16 7 23) /\
  (wave_step (triangle_wave 3) zc 16 0 0.0 = Ok (1%nat, 0.0)
   <-> ~ is_slow_wave (triangle_wave 3) 16 7 23).
Proof.
  intros zc.
  apply (@wave_added_iff_criteria (triangle_wave 3) zc 16 0%nat 0.0
           7%nat 23%nat).
  - reflexivity.
  - reflexivity.
  - vm_compute. lia.
Defined.

(* ===================================================================== *)
(** * The scan over the crossings *)
(* ===================================================================== *)

(** The loop is left, with the total it has, when fewer than 2 crossings
    are ahead. *)
Lemma scan_stops (eeg_filtered : list Q) (zero_crossings : list nat) (fs : Q)
    (i : nat) (total : Q) :
  (crossings_ahead zero_crossings i < 2)%nat ->
  scan eeg_filtered zero_crossings fs i total = Ok total.
Proof.
  intros H. rewrite scan_once.
  apply loop_test_stop in H. rewrite H. reflexivity.
Qed.

(** With 2 crossings ahead the loop goes on, by 1 or by 2. *)
Lemma scan_moves (eeg_filtered : list Q) (zero_crossings : list nat) (fs : Q)
    (i : nat) (total : Q) :
  (2 <= crossings_ahead zero_crossings i)%nat ->
  exists s e,
    nth_error zero_crossings i = Some s /\
    nth_error zero_crossings (i + 2) = Some e /\
    ((((length (candidate eeg_filtered s e) < 2)%nat \/
       ~ is_slow_wave eeg_filtered fs s e) /\
      scan eeg_filtered zero_crossings fs i total
      = scan eeg_filtered zero_crossings fs (i + 1) total)
     \/
     ((2 <= length (candidate eeg_filtered s e))%nat /\
      is_slow_wave eeg_filtered fs s e /\
      scan eeg_filtered zero_crossings fs i total
      = scan eeg_filtered zero_crossings fs (i + 2)
          (total + duration fs s e))).
Proof.
  intros Hahead.
  destruct (bounds_exist zero_crossings i Hahead) as [s [e [Hs He]]].
  exists s, e. split; [exact Hs|]. split; [exact He|].
  destruct (wave_step_spec eeg_filtered zero_crossings fs i total Hs He)
    as [Hrej Hacc].
  rewrite (scan_once eeg_filtered zero_crossings fs i total).
  apply loop_test_ahead in Hahead. rewrite Hahead.
  destruct (Nat.lt_ge_cases (length (candidate eeg_filtered s e)) 2)
    as [Hshort | Hlen].
  - left. split; [left; exact Hshort|].
    rewrite (Hrej (or_introl Hshort)). reflexivity.
  - destruct (is_slow_wave_dec eeg_filtered fs s e Hlen) as [Hyes | Hno].
    + right. split; [exact Hlen|]. split; [exact Hyes|].
      rewrite (Hacc Hlen Hyes). reflexivity.
    + left. split; [right; exact Hno|].
      rewrite (Hrej (or_intror Hno)). reflexivity.
Qed.

(** From any position the loop follows a run of the cursor and returns the
    total it started with plus the durations of the windows accepted. *)
Lemma scan_follows_run (eeg_filtered : list Q) (zero_crossings : list nat)
    (fs : Q) (n : nat) :
  forall (i : nat) (total : Q),
    (length zero_crossings - i <= n)%nat ->
    exists accepted,
      scan_run eeg_filtered zero_crossings fs i accepted /\
      scan eeg_filtered zero_crossings fs i total
      = Ok (add_durations fs total accepted).
Proof.
  induction n as [|n IH]; intros i total Hn.
  - exists []. split.
    + apply run_stop. unfold crossings_ahead. lia.
    + apply scan_stops. unfold crossings_ahead. lia.
  - destruct (Nat.lt_ge_cases (crossings_ahead zero_crossings i) 2)
      as [Hstop | Hgo].
    + exists []. split; [apply run_stop; exact Hstop|].
      apply scan_stops. exact Hstop.
    + destruct (scan_moves eeg_filtered zero_crossings fs i total Hgo)
        as [s [e [Hs [He [[Hrej Heq] | [Hlen [Hyes Heq]]]]]]].
      * destruct (IH (i + 1)%nat total) as [acc [Hrun Hscan]].
        { unfold crossings_ahead in Hgo. lia. }
        exists acc. split.
        -- eapply run_skip; eassumption.
        -- rewrite Heq. exact Hscan.
      * destruct (IH (i + 2)%nat (total + duration fs s e))
          as [acc [Hrun Hscan]].
        { unfold crossings_ahead in Hgo. lia. }
        exists ((s, e) :: acc). split.
        -- eapply run_accept; eassumption.
        -- rewrite Heq. exact Hscan.
Qed.

(** A position has one run: the accepted windows are determined. *)
Lemma scan_run_deterministic (eeg_filtered : list Q)
    (zero_crossings : list nat) (fs : Q) (i : nat)
    (acc1 acc2 : list (nat * nat)) :
  scan_run eeg_filtered zero_crossings fs i acc1 ->
  scan_run eeg_filtered zero_crossings fs i acc2 ->
  acc1 = acc2.
Proof.
  intros H1. revert acc2.
  induction H1 as [i Hstop
                  | i s e acc Hgo Hs He Hrej Hrun IH
                  | i s e acc Hgo Hs He Hlen Hyes Hrun IH];
    intros acc2 H2;
    inversion H2 as [i' Hstop'
                    | i' s' e' acc' Hgo' Hs' He' Hrej' Hrun'
                    | i' s' e' acc' Hgo' Hs' He' Hlen' Hyes' Hrun'];
    subst; try lia; try reflexivity.
  - apply IH. exact Hrun'.
  - rewrite Hs in Hs'. rewrite He in He'.
    injection Hs' as <-. injection He' as <-.
    destruct Hrej as [Hshort | Hno]; [lia | contradiction].
  - rewrite Hs in Hs'. rewrite He in He'.
    injection Hs' as <-. injection He' as <-.
    destruct Hrej' as [Hshort | Hno]; [lia | contradiction].
  - rewrite Hs in Hs'. rewrite He in He'.
    injection Hs' as <-. injection He' as <-.
    f_equal. apply IH. exact Hrun'.
Qed.

(** C3.  The scan is a cursor over the crossings that starts at position
    0.  It ends, returning the running total, exactly when fewer than 2
    crossings are ahead of the cursor.  Otherwise the window from crossing
    [i] to crossing [i + 2] is looked at: if it has fewer than 2 samples or
    fails a criterion, the cursor moves by 1 and the total is unchanged; if
    it passes all three, its duration is added and the cursor moves by 2.
    The total returned is the sum of the durations of the accepted
    windows. *)
Theorem scan_is_cursor (eeg_filtered : list Q) (zero_crossings : list nat)
    (fs : Q) :
  (forall i total,
      (crossings_ahead zero_crossings i < 2)%nat ->
      scan eeg_filtered zero_crossings fs i total = Ok total) /\
  (forall i total,
      (2 <= crossings_ahead zero_crossings i)%nat ->
      exists s e,
        nth_error zero_crossings i = Some s /\
        nth_error zero_crossings (i + 2) = Some e /\
        ((((length (candidate eeg_filtered s e) < 2)%nat \/
           ~ is_slow_wave eeg_filtered fs s e) /\
          wave_step eeg_filtered zero_crossings fs i total
          = Ok ((i + 1)%nat, total) /\
          scan eeg_filtered zero_crossings fs i total
          = scan eeg_filtered zero_crossings fs (i + 1) total)
         \/
         ((2 <= length (candidate eeg_filtered s e))%nat /\
          is_slow_wave eeg_filtered fs s e /\
          wave_step eeg_filtered zero_crossings fs i total
          = Ok ((i + 2)%nat, total + duration fs s e) /\
          scan eeg_filtered zero_crossings fs i total
          = scan eeg_filtered zero_crossings fs (i + 2)
              (total + duration fs s e)))) /\
  (exists accepted,
      scan_run eeg_filtered zero_crossings fs 0 accepted /\
      scan eeg_filtered zero_crossings fs 0 0.0
      = Ok (fold_left Qplus
              (map (fun w => duration fs (fst w) (snd w)) accepted) 0.0)).
Proof.
  split; [|split].
  - intros i total. apply scan_stops.
  - intros i total Hgo.
    destruct (scan_moves eeg_filtered zero_crossings fs i total Hgo)
      as [s [e [Hs [He Hcases]]]].
    exists s, e. split; [exact Hs|]. split; [exact He|].
    destruct (wave_step_spec eeg_filtered zero_crossings fs i total Hs He)
      as [Hrej Hacc].
    destruct Hcases as [[Hno Heq] | [Hlen [Hyes Heq]]].
    + left. split; [exact Hno|]. split; [apply Hrej; exact Hno | exact Heq].
    + right. split; [exact Hlen|]. split; [exact Hyes|].
      split; [apply Hacc; assumption | exact Heq].
  - apply (scan_follows_run eeg_filtered zero_crossings fs
             (n := length zero_crossings)). lia.
Qed.

Lemma scan_is_cursor_witness :
  let zc := [7; 15; 23; 31; 39]%nat in
  scan (triangle_wave 3) zc 16 3 0.0 = Ok 0.0 /\
  exists accepted,
    scan_run (triangle_wave 3) zc 16 0 accepted /\
    scan (triangle_wave 3) zc 16 0 0.0
    = Ok (fold_left Qplus
            (map (fun w => duration 16 (fst w) (snd w)) accepted) 0.0).
Proof.
  intros zc.
  destruct (scan_is_cursor (triangle_wave 3) zc 16) as [Hstop [_ Hrun]].
  split.
  - apply Hstop. vm_compute. lia.
  - exact Hrun.
Defined.

(* ===================================================================== *)
(** * Zero crossings *)
(* ===================================================================== *)

Lemma where_from_bounds (a : list Q) : forall k : nat,
  Forall (fun j => (k <= j < k + length a)%nat) (Np.where_from k a).
Proof.
  induction a as [|x r IH]; intros k; simpl.
  - constructor.
  - assert (Hr : Forall (fun j => (k <= j < k + S (length r))%nat)
                   (Np.where_from (S k) r)).
    { eapply Forall_impl; [|apply IH]. simpl. intros j Hj. lia. }
    destruct (Qeq_bool x 0); [exact Hr|].
    constructor; [lia | exact Hr].
Qed.

(** The indices [np.where] returns increase. *)
Lemma where_from_increasing (a : list Q) : forall (k i j x y : nat),
  (i < j)%nat ->
  nth_error (Np.where_from k a) i = Some x ->
  nth_error (Np.where_from k a) j = Some y ->
  (x < y)%nat.
Proof.
  induction a as [|v r IH]; intros k i j x y Hij Hx Hy; simpl in *.
  - destruct i; discriminate.
  - destruct (Qeq_bool v 0).
    + eapply IH; eassumption.
    + destruct j as [|j]; [lia|]. simpl in Hy.
      destruct i as [|i]; simpl in Hx.
      * injection Hx as <-.
        pose proof (where_from_bounds r (S k)) as Hb.
        rewrite Forall_forall in Hb.
        apply nth_error_In in Hy. specialize (Hb y Hy). lia.
      * eapply (IH (S k) i j); try eassumption. lia.
Qed.

Lemma diff_length (a : list Q) : length (Np.diff a) = (length a - 1)%nat.
Proof.
  induction a as [|x r IH]; [reflexivity|].
  destruct r as [|y r]; [reflexivity|].
  change (Np.diff (x :: y :: r)) with ((y - x) :: Np.diff (y :: r)).
  simpl length in *. rewrite IH. lia.
Qed.

(** A crossing lies at least two samples before the end of the signal. *)
Lemma zero_crossings_bound (eeg_filtered : list Q) (j : nat) :
  In j (Np.where_ (Np.diff (Np.sign eeg_filtered))) ->
  (j + 2 <= length eeg_filtered)%nat.
Proof.
  intros Hin.
  pose proof (where_from_bounds (Np.diff (Np.sign eeg_filtered)) 0) as Hb.
  rewrite Forall_forall in Hb. specialize (Hb j Hin).
  rewrite diff_length in Hb. unfold Np.sign in Hb.
  rewrite length_map in Hb. lia.
Qed.

(* ===================================================================== *)
(** * How much time the accepted windows can cover *)
(* ===================================================================== *)

Lemma add_durations_span (fs : Q) (windows : list (nat * nat)) :
  forall total : Q,
    add_durations fs total windows == total + inject_Z (span windows) / fs.
Proof.
  unfold add_durations.
  induction windows as [|[s e] ws IH]; intros total; simpl.
  - unfold Qdiv. change (inject_Z 0) with 0. ring.
  - rewrite IH. unfold duration. simpl.
    rewrite inject_Z_plus. unfold Qdiv. ring.
Qed.

Section AcceptedWindows.

Variable eeg_filtered : list Q.
Variable zero_crossings : list nat.
Variable fs : Q.

(** The crossings increase, and none is beyond sample [last]. *)
Hypothesis crossings_increase : forall i j x y : nat,
  (i < j)%nat ->
  nth_error zero_crossings i = Some x ->
  nth_error zero_crossings j = Some y ->
  (x < y)%nat.

Variable last : nat.
Hypothesis crossings_bounded : Forall (fun j => (j <= last)%nat) zero_crossings.

(** The accepted windows follow one another without overlap: from the
    crossing under the cursor they cover no more than what is left up to
    the last sample. *)
Lemma run_span_bound (i : nat) (accepted : list (nat * nat)) :
  scan_run eeg_filtered zero_crossings fs i accepted ->
  (0 <= span accepted)%Z /\
  forall s0, nth_error zero_crossings i = Some s0 ->
             (Z.of_nat s0 + span accepted <= Z.of_nat last)%Z.
Proof.
  intros Hrun.
  induction Hrun as [i Hstop
                    | i s e acc Hgo Hs He Hrej Hrun [IH0 IH]
                    | i s e acc Hgo Hs He Hlen Hyes Hrun [IH0 IH]].
  - split; [simpl; lia|]. intros s0 Hs0. simpl.
    rewrite Forall_forall in crossings_bounded.
    apply nth_error_In in Hs0. specialize (crossings_bounded s0 Hs0). lia.
  - split; [exact IH0|]. intros s0 Hs0.
    destruct (nth_error zero_crossings (i + 1)) as [s1|] eqn:Hs1.
    + specialize (IH s1 eq_refl).
      assert (s0 < s1)%nat.
      { apply (@crossings_increase i (i + 1)%nat); auto. lia. }
      lia.
    + apply nth_error_None in Hs1. unfold crossings_ahead in Hgo. lia.
  - assert (Hse : (s < e)%nat).
    { apply (@crossings_increase i (i + 2)%nat); auto. lia. }
    split; [simpl; lia|].
    intros s0 Hs0. rewrite Hs in Hs0. injection Hs0 as <-.
    specialize (IH e He). simpl. lia.
Qed.

(** Every accepted window lasts at least half a second. *)
Lemma run_durations (i : nat) (accepted : list (nat * nat)) :
  scan_run eeg_filtered zero_crossings fs i accepted ->
  Forall (fun w => 0.5 <= duration fs (fst w) (snd w)) accepted.
Proof.
  intros Hrun.
  induction Hrun as [i Hstop
                    | i s e acc Hgo Hs He Hrej Hrun IH
                    | i s e acc Hgo Hs He Hlen Hyes Hrun IH].
  - constructor.
  - exact IH.
  - constructor; [|exact IH]. simpl.
    destruct Hyes as [_ [[Hlow _] _]]. exact Hlow.
Qed.

Lemma add_durations_grows (windows : list (nat * nat)) :
  Forall (fun w => 0.5 <= duration fs (fst w) (snd w)) windows ->
  forall total : Q, total <= add_durations fs total windows.
Proof.
  unfold add_durations.
  induction 1 as [|w ws Hw _ IH]; intros total; simpl.
  - apply Qle_refl.
  - eapply Qle_trans; [|apply IH]. lra.
Qed.

(** The total of a scan from position 0: not negative, and, at a positive
    sampling rate, no more than the time from the first sample to sample
    [last]; at a negative sampling rate it is zero. *)
Lemma scan_total_bounds (total : Q) :
  scan eeg_filtered zero_crossings fs 0 0.0 = Ok total ->
  0 <= total /\
  (0 < fs -> total * fs <= inject_Z (Z.of_nat last)) /\
  (fs < 0 -> total == 0).
Proof.
  intros Hscan.
  destruct (scan_follows_run eeg_filtered zero_crossings fs
              (n := length zero_crossings) 0 0.0) as [acc [Hrun Htot]];
    [lia|].
  rewrite Hscan in Htot. injection Htot as ->.
  pose proof (run_span_bound Hrun) as [Hspan0 Hspan].
  pose proof (add_durations_grows (run_durations Hrun) 0.0) as Hlow.
  pose proof (add_durations_span fs acc 0.0) as Hsum.
  assert (Hupper : (span acc <= Z.of_nat last)%Z).
  { destruct zero_crossings as [|s0 zc] eqn:Ezc.
    - inversion Hrun as [i Hstop | i s e a Hgo Hs | i s e a Hgo Hs]; subst.
      + simpl. lia.
      + match goal with H : nth_error [] _ = Some _ |- _ =>
          simpl in H; discriminate H end.
      + match goal with H : nth_error [] _ = Some _ |- _ =>
          simpl in H; discriminate H end.
    - specialize (Hspan s0 eq_refl). lia. }
  assert (Hq0 : 0 <= inject_Z (span acc)).
  { change 0 with (inject_Z 0). rewrite <- Zle_Qle. exact Hspan0. }
  assert (Hq1 : inject_Z (span acc) <= inject_Z (Z.of_nat last)).
  { rewrite <- Zle_Qle. exact Hupper. }
  split; [lra|]. split.
  - intros Hfs. rewrite Hsum.
    assert (E : (0.0 + inject_Z (span acc) / fs) * fs == inject_Z (span acc)).
    { field. lra. }
    rewrite E. exact Hq1.
  - intros Hfs.
    assert (Hneg : inject_Z (span acc) / fs <= 0).
    { unfold Qdiv.
      assert (Hinv : / fs < 0).
      { destruct (Qlt_le_dec (/ fs) 0) as [Hl|Hg]; [exact Hl|].
        exfalso.
        assert (Hone : fs * / fs == 1) by (apply Qmult_inv_r; lra).
        assert (Hprod : fs * / fs <= 0).
        { rewrite <- (Qmult_0_l (/ fs)).
          apply Qmult_le_compat_r; [lra | exact Hg]. }
        lra. }
      setoid_replace 0 with (inject_Z (span acc) * 0) by ring.
      rewrite (Qmult_comm (inject_Z (span acc)) (/ fs)).
      rewrite (Qmult_comm (inject_Z (span acc)) 0).
      apply Qmult_le_compat_r; [lra | exact Hq0]. }
    lra.
Qed.

End AcceptedWindows.

(* ===================================================================== *)
(** * The range of the score *)
(* ===================================================================== *)

Lemma truediv_Ok (a b q : Q) :
  truediv a b = Ok q -> ~ b == 0 /\ q = a / b.
Proof.
  unfold truediv. destruct (Qeq_bool b 0) eqn:E; [discriminate|].
  intros H. injection H as <-. split; [|reflexivity].
  intros Hb. apply Qeq_bool_iff in Hb. congruence.
Qed.

(** A signal the gate accepts has at least 2 samples. *)
Lemma gate_accepts_length (signal : list Q) (fs : pynum) :
  check_signal_quality signal fs = Ok true -> (2 <= length signal)%nat.
Proof.
  unfold check_signal_quality.
  destruct (length signal <? 2)%nat eqn:E; [discriminate|].
  intros _. apply Nat.ltb_ge in E. exact E.
Qed.

(** What a score is made of: 0.0 from the gate, or the total of the scan,
    from position 0, of the filtered signal, over the epoch duration,
    times 100. *)
Lemma score_n3_epoch_Ok
    (firwin : nat -> list Q -> bool -> exc (list Q))
    (filtfilt : list Q -> Q -> list Q -> exc (list Q))
    (eeg_signal : list Q) (fs epoch_duration : pynum) (swa : Q) :
  score_n3_epoch firwin filtfilt eeg_signal fs epoch_duration = Ok swa ->
  (check_signal_quality eeg_signal fs = Ok false /\ swa = 0.0) \/
  (check_signal_quality eeg_signal fs = Ok true /\
   ~ to_float fs == 0 /\ ~ to_float epoch_duration == 0 /\
   exists fir_coeffs eeg_filtered total,
     filtfilt fir_coeffs 1.0 eeg_signal = Ok eeg_filtered /\
     scan eeg_filtered (Np.where_ (Np.diff (Np.sign eeg_filtered)))
       (to_float fs) 0 0.0 = Ok total /\
     swa = total / to_float epoch_duration * 100).
Proof.
  unfold score_n3_epoch. intros H.
  apply bind_Ok in H. destruct H as [usable [Hgate H]].
  destruct usable; simpl in H.
  - right. split; [exact Hgate|].
    apply bind_Ok in H. destruct H as [low [Hlow H]].
    apply bind_Ok in H. destruct H as [high [_ H]].
    apply bind_Ok in H. destruct H as [taps [_ H]].
    apply bind_Ok in H. destruct H as [filtered [Hfilt H]].
    apply bind_Ok in H. destruct H as [total [Hscan H]].
    apply bind_Ok in H. destruct H as [ratio [Hratio H]].
    injection H as <-.
    apply truediv_Ok in Hlow. destruct Hlow as [Hny _].
    apply truediv_Ok in Hratio. destruct Hratio as [Hd ->].
    split; [intros E; apply Hny; rewrite E; reflexivity|].
    split; [exact Hd|].
    exists taps, filtered, total. auto.
  - left. injection H as <-. auto.
Qed.

Section LengthPreservingFilter.

Variable firwin : nat -> list Q -> bool -> exc (list Q).
Variable filtfilt : list Q -> Q -> list Q -> exc (list Q).

(** [filtfilt] returns as many samples as it is given. *)
Hypothesis filtfilt_length : forall (b : list Q) (a : Q) (x y : list Q),
  filtfilt b a x = Ok y -> length y = length x.

(** The score of a signal that is no longer than the epoch duration says
    it is lies between 0 and 100. *)
Lemma score_n3_epoch_range (eeg_signal : list Q) (fs epoch_duration : pynum)
    (swa : Q) :
  inject_Z (Z.of_nat (length eeg_signal))
  <= to_float epoch_duration * to_float fs ->
  score_n3_epoch firwin filtfilt eeg_signal fs epoch_duration = Ok swa ->
  0 <= swa /\ swa <= 100.
Proof.
  intros Hlen Hscore.
  apply score_n3_epoch_Ok in Hscore.
  destruct Hscore as [[_ ->] | [Hgate [Hfs [Hd Hrest]]]].
  { split; lra. }
  destruct Hrest as [taps [filtered [total [Hfilt [Hscan ->]]]]].
  apply gate_accepts_length in Hgate.
  apply filtfilt_length in Hfilt.
  set (F := to_float fs) in *. set (D := to_float epoch_duration) in *.
  set (zc := Np.where_ (Np.diff (Np.sign filtered))) in *.
  assert (Hb : Forall (fun j => (j <= length filtered - 2)%nat) zc).
  { apply Forall_forall. intros j Hj.
    apply zero_crossings_bound in Hj. lia. }
  destruct (@scan_total_bounds filtered zc F
              (where_from_increasing (Np.diff (Np.sign filtered)) 0)
              (length filtered - 2)%nat Hb total Hscan)
    as [Hlow [Hpos Hneg]].
  assert (Hn : inject_Z (Z.of_nat (length filtered - 2))
               <= inject_Z (Z.of_nat (length eeg_signal)) - 2).
  { rewrite Hfilt.
    replace (Z.of_nat (length eeg_signal - 2))
      with (Z.of_nat (length eeg_signal) - 2)%Z by lia.
    unfold Zminus. rewrite inject_Z_plus.
    assert (E : inject_Z (- (2)) == - (2)) by reflexivity.
    rewrite E. lra. }
  assert (Hn2 : 2 <= inject_Z (Z.of_nat (length eeg_signal))).
  { change 2 with (inject_Z 2). rewrite <- Zle_Qle. lia. }
  destruct (Q_dec F 0) as [[Fneg | Fpos] | Fz]; [| |contradiction].
  - (* fs < 0: nothing is accepted *)
    specialize (Hneg Fneg).
    assert (E : total / D * 100 == 0).
    { rewrite Hneg. unfold Qdiv. ring. }
    rewrite E. split; lra.
  - (* fs > 0 *)
    specialize (Hpos Fpos).
    assert (HD : 0 < D).
    { destruct (Qlt_le_dec 0 D) as [H|H]; [exact H|].
      exfalso.
      assert (D * F <= 0).
      { rewrite <- (Qmult_0_l F). apply Qmult_le_compat_r; lra. }
      lra. }
    assert (Htot : total <= D).
    { apply (Qmult_le_r _ _ F Fpos). lra. }
    split.
    + apply Qmult_le_0_compat; [|lra].
      apply Qle_shift_div_l; [exact HD | lra].
    + assert (Hr : total / D <= 1).
      { apply Qle_shift_div_r; [exact HD | lra]. }
      lra.
Qed.

End LengthPreservingFilter.

(** A call of [score_n3_epochs] that returns had int arguments with a
    non-zero product, and ran the loop body over [range(num_epochs)]. *)
Lemma score_n3_epochs_Ok
    (firwin : nat -> list Q -> bool -> exc (list Q))
    (filtfilt : list Q -> Q -> list Q -> exc (list Q))
    (eeg_signal : list Q) (fs epoch_duration : pynum)
    (results : list epoch_result) :
  score_n3_epochs firwin filtfilt eeg_signal fs epoch_duration = Ok results ->
  exists f d : Z,
    fs = PyInt f /\ epoch_duration = PyInt d /\ (d * f)%Z <> 0%Z /\
    for_append
      (score_one firwin filtfilt eeg_signal (PyInt f) (PyInt d)
         (PyInt (d * f)))
      (map Z.of_nat
         (seq 0 (Z.to_nat (Z.of_nat (length eeg_signal) / (d * f)))))
    = Ok results.
Proof.
  unfold score_n3_epochs. intros H.
  apply bind_Ok in H. destruct H as [n [Hn H]].
  apply bind_Ok in H. destruct H as [indices [Hidx H]].
  destruct fs as [f|qf], epoch_duration as [d|qd]; simpl in Hn.
  - destruct (Z.eqb_spec (d * f) 0) as [E|E]; [discriminate|].
    injection Hn as <-. simpl in Hidx. injection Hidx as <-.
    exists f, d. auto.
  - destruct (Qeq_bool _ 0); [discriminate|].
    injection Hn as <-. discriminate Hidx.
  - destruct (Qeq_bool _ 0); [discriminate|].
    injection Hn as <-. discriminate Hidx.
  - destruct (Qeq_bool _ 0); [discriminate|].
    injection Hn as <-. discriminate Hidx.
Qed.

(** Every entry of the result list is the score of a full window. *)
Lemma entry_scores_window
    (firwin : nat -> list Q -> bool -> exc (list Q))
    (filtfilt : list Q -> Q -> list Q -> exc (list Q))
    (eeg_signal : list Q) (f d : Z) (results : list epoch_result)
    (r : epoch_result) :
  score_n3_epochs firwin filtfilt eeg_signal (PyInt f) (PyInt d)
  = Ok results ->
  In r results ->
  exists k : nat,
    (0 < d * f)%Z /\
    epoch r = Z.of_nat k /\
    length (epoch_window eeg_signal (Z.to_nat (d * f)) k)
    = Z.to_nat (d * f) /\
    score_n3_epoch firwin filtfilt
      (epoch_window eeg_signal (Z.to_nat (d * f)) k) (PyInt f) (PyInt d)
    = Ok (swa_percent r).
Proof.
  intros H Hin.
  apply score_n3_epochs_Ok in H.
  destruct H as [f' [d' [Ef [Ed [Hnz H]]]]].
  injection Ef as <-. injection Ed as <-.
  destruct (for_append_In _ _ r H Hin) as [i [Hi Hone]].
  apply in_map_iff in Hi. destruct Hi as [k [<- Hk]].
  apply in_seq in Hk.
  set (len := Z.of_nat (length eeg_signal)) in *.
  assert (Hspe : (0 < d * f)%Z).
  { destruct (Z.lt_trichotomy (d * f) 0) as [Hneg | [E | Hpos]];
      [|contradiction|exact Hpos].
    exfalso.
    assert (len / (d * f) <= 0)%Z.
    { pose proof (Z.div_opp_opp len (d * f) Hnz) as Hopp.
      rewrite <- Hopp.
      apply Z.div_le_upper_bound; [lia|]. subst len. lia. }
    lia. }
  assert (Hfit : ((Z.of_nat k + 1) * (d * f) <= len)%Z).
  { pose proof (Z.mul_div_le len (d * f) Hspe) as Hle.
    assert (0 <= len / (d * f))%Z by (apply Z.div_pos; subst len; lia).
    nia. }
  exists k. split; [exact Hspe|].
  unfold score_one in Hone. simpl in Hone.
  rewrite slice_is_window in Hone by assumption.
  apply bind_Ok in Hone. destruct Hone as [swa [Hswa Hr]].
  injection Hr as <-. simpl.
  split; [reflexivity|]. split; [|exact Hswa].
  apply window_length. subst len. nia.
Qed.

(** C7.  With a filter that returns as many samples as it is given, every
    entry of the list [score_n3_epochs] returns has its [swa_percent]
    between 0 and 100, both included. *)
Theorem swa_percent_in_range
    (firwin : nat -> list Q -> bool -> exc (list Q))
    (filtfilt : list Q -> Q -> list Q -> exc (list Q))
    (eeg_signal : list Q) (fs epoch_duration : pynum)
    (results : list epoch_result) :
  (forall (b : list Q) (a : Q) (x y : list Q),
      filtfilt b a x = Ok y -> length y = length x) ->
  score_n3_epochs firwin filtfilt eeg_signal fs epoch_duration = Ok results ->
  forall r : epoch_result,
    In r results -> 0 <= swa_percent r /\ swa_percent r <= 100.
Proof.
  intros Hfilt H r Hin.
  destruct (@score_n3_epochs_Ok _ _ _ _ _ _ H) as [f [d [-> [-> _]]]].
  destruct (@entry_scores_window _ _ _ _ _ _ _ H Hin)
    as [k [Hspe [_ [Hlen Hscore]]]].
  apply (@score_n3_epoch_range firwin filtfilt Hfilt
           (epoch_window eeg_signal (Z.to_nat (d * f)) k) (PyInt f) (PyInt d)
           (swa_percent r)); [|exact Hscore].
  rewrite Hlen, Z2Nat.id by lia. simpl.
  rewrite inject_Z_mult. apply Qle_refl.
Qed.

Lemma swa_percent_in_range_witness :
  let r := {| epoch := 1; stage := "N3"; swa_percent := 512000 # 7680 |} in
  0 <= swa_percent r /\ swa_percent r <= 100.
Proof.
  intros r.
  apply (@swa_percent_in_range firwin_unit filtfilt_id (triangle_wave 7)
           (PyInt 16) (PyInt 3)
           [ {| epoch := 0; stage := "N3"; swa_percent := 512000 # 7680 |};
             r ]).
  - intros b a x y E. injection E as <-. reflexivity.
  - vm_compute. reflexivity.
  - right. left. reflexivity.
Defined.

(* ===================================================================== *)
(** * Further properties: sums, means and variances *)
(* ===================================================================== *)

Lemma fold_Qplus_shift (l : list Q) : forall a : Q,
  fold_left Qplus l a == a + fold_left Qplus l 0.
Proof.
  induction l as [|x l IH]; intros a; simpl.
  - ring.
  - rewrite (IH (a + x)), (IH (0 + x)). ring.
Qed.

Lemma sum_cons (x : Q) (l : list Q) : Np.sum (x :: l) == x + Np.sum l.
Proof.
  unfold Np.sum. simpl. rewrite fold_Qplus_shift. ring.
Qed.

(** Arrays equal entry by entry, as numbers, have equal sums, means and
    variances. *)
Lemma sum_ext (l l' : list Q) :
  Forall2 Qeq l l' -> Np.sum l == Np.sum l'.
Proof.
  induction 1 as [|x y l l' Hxy _ IH].
  - reflexivity.
  - rewrite !sum_cons, Hxy, IH. reflexivity.
Qed.

Lemma mean_ext (l l' : list Q) :
  Forall2 Qeq l l' -> Np.mean l == Np.mean l'.
Proof.
  intros H. unfold Np.mean.
  rewrite (sum_ext H), (Forall2_length H). reflexivity.
Qed.

Lemma Forall2_map_Qeq (f g : Q -> Q) (l l' : list Q) :
  (forall x y, x == y -> f x == g y) ->
  Forall2 Qeq l l' -> Forall2 Qeq (map f l) (map g l').
Proof.
  intros Hfg. induction 1; simpl; constructor; auto.
Qed.

Lemma Forall2_Qeq_refl (l : list Q) : Forall2 Qeq l l.
Proof. induction l; constructor; auto. reflexivity. Qed.

Lemma var_ext (l l' : list Q) :
  Forall2 Qeq l l' -> Np.var l == Np.var l'.
Proof.
  intros H. unfold Np.var. apply mean_ext.
  apply Forall2_map_Qeq; [|exact H].
  intros x y Hxy. rewrite Hxy, (mean_ext H). reflexivity.
Qed.


Lemma sum_map_mul (c : Q) (l : list Q) :
  Np.sum (map (fun x => c * x) l) == c * Np.sum l.
Proof.
  induction l as [|x l IH].
  - simpl. unfold Np.sum. simpl. ring.
  - simpl map. rewrite !sum_cons, IH. ring.
Qed.



Lemma mean_map_mul (c : Q) (l : list Q) :
  Np.mean (map (fun x => c * x) l) == c * Np.mean l.
Proof.
  unfold Np.mean. rewrite length_map, sum_map_mul.
  unfold Qdiv. ring.
Qed.


Lemma var_map_mul (c : Q) (l : list Q) :
  Np.var (map (fun x => c * x) l) == c * c * Np.var l.
Proof.
  unfold Np.var. rewrite map_map.
  rewrite <- (mean_map_mul (c * c)), map_map.
  apply mean_ext.
  apply Forall2_map_Qeq; [|apply Forall2_Qeq_refl].
  intros x y Hxy. rewrite Hxy, mean_map_mul. ring.
Qed.


Lemma diff_map_mul (c : Q) (l : list Q) :
  Forall2 Qeq (Np.diff (map (fun x => c * x) l))
    (map (fun x => c * x) (Np.diff l)).
Proof.
  induction l as [|x l IH]; [constructor|].
  destruct l as [|y l]; [constructor|].
  change (Forall2 Qeq
            ((c * y - c * x) :: Np.diff (map (fun x => c * x) (y :: l)))
            ((c * (y - x)) :: map (fun x => c * x) (Np.diff (y :: l)))).
  constructor; [ring | exact IH].
Qed.

(* ===================================================================== *)
(** * Further properties: the signal quality gate *)
(* ===================================================================== *)

Lemma all_zero_dec (l : list Q) :
  {Forall (fun x => x == 0) l} + {~ Forall (fun x => x == 0) l}.
Proof. apply Forall_dec. intros x. apply Qeq_dec. Qed.

(** Past the two early returns, the verdict is a function of the two
    powers. *)
Lemma gate_verdict (signal : list Q) (fs : pynum) :
  (2 <= length signal)%nat ->
  ~ Forall (fun x => x == 0) signal ->
  check_signal_quality signal fs
  = Ok (if Qeq_bool (Np.var (Np.diff signal)) 0
        then Qltb 0.1 (Np.var signal)
        else Qltb 5.0 (Np.var signal / Np.var (Np.diff signal))).
Proof.
  intros Hlen Hnz. unfold check_signal_quality.
  apply Nat.ltb_ge in Hlen. rewrite Hlen. apply Nat.ltb_ge in Hlen.
  assert (Hne : Np.abs signal <> []).
  { unfold Np.abs. destruct signal; simpl in *; [lia | discriminate]. }
  destruct (np_max_spec Hne) as [peak [Hpeak _]].
  rewrite Hpeak. simpl.
  destruct (Qeq_bool peak 0) eqn:Hz.
  - apply Qeq_bool_iff in Hz. exfalso.
    apply Hnz, (peak_zero_iff signal Hpeak), Hz.
  - destruct (Qeq_bool (Np.var (Np.diff signal)) 0); reflexivity.
Qed.

Lemma Qltb_ext (a a' b b' : Q) :
  a == a' -> b == b' -> Qltb a b = Qltb a' b'.
Proof.
  intros Ha Hb. apply eq_true_iff_eq. rewrite !Qltb_lt, Ha, Hb. reflexivity.
Qed.

Lemma Qeq_bool_ext (a a' : Q) : a == a' -> Qeq_bool a 0 = Qeq_bool a' 0.
Proof.
  intros Ha. apply eq_true_iff_eq. rewrite !Qeq_bool_iff, Ha. reflexivity.
Qed.

Lemma verdict_ext (sp sp' np np' : Q) :
  sp == sp' -> np == np' ->
  (if Qeq_bool np 0 then Qltb 0.1 sp else Qltb 5.0 (sp / np))
  = (if Qeq_bool np' 0 then Qltb 0.1 sp' else Qltb 5.0 (sp' / np')).
Proof.
  intros Hs Hn. rewrite (Qeq_bool_ext Hn).
  destruct (Qeq_bool np' 0).
  - apply Qltb_ext; [reflexivity | exact Hs].
  - apply Qltb_ext; [reflexivity|]. rewrite Hs, Hn. reflexivity.
Qed.










Lemma all_zero_ext (l l' : list Q) :
  Forall2 Qeq l l' ->
  Forall (fun x => x == 0) l -> Forall (fun x => x == 0) l'.
Proof.
  induction 1 as [|x y l l' Hxy _ IH]; intros Hz; [constructor|].
  inversion Hz as [|? ? Hx Hl]; subst. cbv beta in Hx.
  constructor; [rewrite <- Hxy; exact Hx | apply IH; exact Hl].
Qed.

Lemma Forall2_Qeq_sym (l l' : list Q) :
  Forall2 Qeq l l' -> Forall2 Qeq l' l.
Proof.
  induction 1; constructor; auto. symmetry. assumption.
Qed.

Lemma diff_ext (l l' : list Q) :
  Forall2 Qeq l l' -> Forall2 Qeq (Np.diff l) (Np.diff l').
Proof.
  induction 1 as [|x x' l l' Hx Hl IH]; [constructor|].
  destruct Hl as [|y y' l l' Hy Hl]; [constructor|].
  change (Forall2 Qeq ((y - x) :: Np.diff (y :: l))
            ((y' - x') :: Np.diff (y' :: l'))).
  constructor; [rewrite Hx, Hy; reflexivity | exact IH].
Qed.

(** The verdict depends on the samples as numbers only. *)
Lemma gate_ext (l l' : list Q) (fs : pynum) :
  Forall2 Qeq l l' ->
  check_signal_quality l fs = check_signal_quality l' fs.
Proof.
  intros H. pose proof (Forall2_length H) as Hlen.
  destruct (Nat.lt_ge_cases (length l) 2) as [Hshort | Hlong].
  { rewrite !gate_rejects_short_or_flat; auto; left; lia. }
  destruct (all_zero_dec l) as [Hz | Hnz].
  { rewrite !gate_rejects_short_or_flat; auto; right; auto.
    apply (all_zero_ext H Hz). }
  assert (Hnz' : ~ Forall (fun x => x == 0) l').
  { intros Hz'. apply Hnz. apply (all_zero_ext (Forall2_Qeq_sym H) Hz'). }
  rewrite (gate_verdict fs Hlong Hnz).
  rewrite (@gate_verdict l' fs) by (auto; lia).
  f_equal. apply verdict_ext.
  - apply var_ext, H.
  - apply var_ext, diff_ext, H.
Qed.


Lemma gate_scaled (c : Q) (signal : list Q) (fs : pynum) :
  ~ c == 0 ->
  c * c == 1 \/ ~ Np.var (Np.diff signal) == 0 ->
  check_signal_quality (map (fun x => c * x) signal) fs
  = check_signal_quality signal fs.
Proof.
  intros Hc Hcase.
  set (scaled := map (fun x => c * x) signal).
  assert (Hlen : length scaled = length signal) by apply length_map.
  destruct (Nat.lt_ge_cases (length signal) 2) as [Hshort | Hlong].
  { rewrite !gate_rejects_short_or_flat; auto; left; lia. }
  destruct (all_zero_dec signal) as [Hz | Hnz].
  { rewrite !gate_rejects_short_or_flat; auto; right; auto.
    subst scaled. apply Forall_forall. intros y Hy.
    apply in_map_iff in Hy. destruct Hy as [x [<- Hx]].
    rewrite Forall_forall in Hz. pose proof (Hz x Hx) as E. cbv beta in E.
    rewrite E. ring. }
  assert (Hnz' : ~ Forall (fun x => x == 0) scaled).
  { intros Hz'. apply Hnz. apply Forall_forall. intros x Hx.
    rewrite Forall_forall in Hz'.
    pose proof (Hz' (c * x) (in_map (fun x => c * x) _ _ Hx)) as E.
    cbv beta in E.
    apply Qmult_integral in E. destruct E; [contradiction | assumption]. }
  rewrite (gate_verdict fs Hlong Hnz).
  rewrite (@gate_verdict scaled fs) by (auto; lia).
  f_equal.
  assert (Hsp : Np.var scaled == c * c * Np.var signal)
    by apply var_map_mul.
  assert (Hnp : Np.var (Np.diff scaled)
                == c * c * Np.var (Np.diff signal)).
  { subst scaled. rewrite (var_ext (diff_map_mul c signal)).
    apply var_map_mul. }
  assert (Hcc : ~ c * c == 0).
  { intros E. apply Qmult_integral in E. destruct E; contradiction. }
  destruct (Qeq_dec (Np.var (Np.diff signal)) 0) as [Hn0 | Hn].
  - destruct Hcase as [Hone | Hno]; [|contradiction].
    apply verdict_ext.
    + rewrite Hsp, Hone. ring.
    + rewrite Hnp, Hone. ring.
  - assert (Hn' : ~ Np.var (Np.diff scaled) == 0).
    { rewrite Hnp. intros E. apply Qmult_integral in E.
      destruct E; contradiction. }
    assert (B : Qeq_bool (Np.var (Np.diff signal)) 0 = false).
    { apply not_true_iff_false. intros E. apply Qeq_bool_iff in E.
      contradiction. }
    assert (B' : Qeq_bool (Np.var (Np.diff scaled)) 0 = false).
    { apply not_true_iff_false. intros E. apply Qeq_bool_iff in E.
      contradiction. }
    rewrite B, B'. apply Qltb_ext; [reflexivity|].
    rewrite Hsp, Hnp. field. split; assumption.
Qed.



(** The verdict is the same for a signal and for the signal with every
    sample negated. *)
Theorem check_signal_quality_sign_invariant (signal : list Q) (fs : pynum) :
  check_signal_quality (map Qopp signal) fs
  = check_signal_quality signal fs.
Proof.
  rewrite <- (@gate_scaled (- (1)) signal fs).
  - apply gate_ext.
    induction signal as [|x l IH]; simpl; constructor; [ring | exact IH].
  - intros H. discriminate H.
  - left. reflexivity.
Qed.

(* ===================================================================== *)
(** * Further properties: zero crossings and candidate windows *)
(* ===================================================================== *)

Lemma where_from_In (a : list Q) : forall k j : nat,
  In j (Np.where_from k a) <->
  (k <= j)%nat /\
  exists v, nth_error a (j - k) = Some v /\ ~ v == 0.
Proof.
  induction a as [|x r IH]; intros k j; simpl.
  - split; [intros []|]. intros [_ [v [Hv _]]].
    destruct (j - k)%nat; discriminate.
  - assert (Hrest : In j (Np.where_from (S k) r) <->
                    (k < j)%nat /\
                    exists v, nth_error (x :: r) (j - k) = Some v /\
                              ~ v == 0).
    { rewrite IH. split.
      - intros [Hk [v [Hv Hnz]]]. split; [lia|]. exists v. split; [|exact Hnz].
        replace (j - k)%nat with (S (j - S k)) by lia. exact Hv.
      - intros [Hk [v [Hv Hnz]]]. split; [lia|]. exists v. split; [|exact Hnz].
        replace (j - k)%nat with (S (j - S k)) in Hv by lia. exact Hv. }
    destruct (Qeq_bool x 0) eqn:Hx.
    + rewrite Hrest. apply Qeq_bool_iff in Hx. split.
      * intros [Hk H]. split; [lia | exact H].
      * intros [Hk [v [Hv Hnz]]].
        destruct (Nat.eq_dec j k) as [-> | Hjk].
        -- rewrite Nat.sub_diag in Hv. simpl in Hv. injection Hv as <-.
           contradiction.
        -- split; [lia|]. exists v. auto.
    + assert (Hxnz : ~ x == 0).
      { intros E. apply Qeq_bool_iff in E. congruence. }
      simpl. rewrite Hrest. split.
      * intros [<- | [Hk H]].
        -- split; [lia|]. exists x. rewrite Nat.sub_diag. auto.
        -- split; [lia | exact H].
      * intros [Hk H].
        destruct (Nat.eq_dec j k) as [-> | Hjk]; [left; reflexivity|].
        right. split; [lia | exact H].
Qed.

Lemma diff_nth_error (a : list Q) : forall (j : nat) (d : Q),
  nth_error (Np.diff a) j = Some d <->
  exists x y, nth_error a j = Some x /\ nth_error a (S j) = Some y /\
              d = y - x.
Proof.
  induction a as [|x0 r IH]; intros j d.
  - simpl. split; [destruct j; discriminate|].
    intros [x [y [Hx _]]]. destruct j; discriminate.
  - destruct r as [|y0 r].
    + simpl. split; [destruct j; discriminate|].
      intros [x [y [_ [Hy _]]]]. destruct j; discriminate.
    + change (Np.diff (x0 :: y0 :: r)) with ((y0 - x0) :: Np.diff (y0 :: r)).
      destruct j as [|j].
      * simpl. split.
        -- intros H. injection H as <-. exists x0, y0. auto.
        -- intros [x [y [Hx [Hy ->]]]]. congruence.
      * change (nth_error ((y0 - x0) :: Np.diff (y0 :: r)) (S j))
          with (nth_error (Np.diff (y0 :: r)) j).
        rewrite IH. reflexivity.
Qed.

Lemma sign1_values (x : Q) :
  (0 < x /\ Np.sign1 x = 1) \/ (x < 0 /\ Np.sign1 x = - (1)) \/
  (x == 0 /\ Np.sign1 x = 0).
Proof.
  unfold Np.sign1.
  destruct (Qltb 0 x) eqn:Hp.
  - left. apply Qltb_lt in Hp. auto.
  - destruct (Qltb x 0) eqn:Hn.
    + right. left. apply Qltb_lt in Hn. auto.
    + right. right. apply Qltb_ge in Hp, Hn.
      split; [apply Qle_antisym; assumption | reflexivity].
Qed.

(** Line 75: index [j] is a zero crossing exactly when samples [j] and
    [j + 1] both exist and do not have the same sign, the sign of a
    sample being one of positive, negative and zero. *)
Theorem zero_crossing_iff_sign_change (eeg_filtered : list Q) (j : nat) :
  In j (Np.where_ (Np.diff (Np.sign eeg_filtered))) <->
  exists x y : Q,
    nth_error eeg_filtered j = Some x /\
    nth_error eeg_filtered (S j) = Some y /\
    ~ ((0 < x /\ 0 < y) \/ (x < 0 /\ y < 0) \/ (x == 0 /\ y == 0)).
Proof.
  unfold Np.where_. rewrite where_from_In, Nat.sub_0_r. split.
  - intros [_ [v [Hv Hnz]]].
    apply diff_nth_error in Hv. destruct Hv as [sx [sy [Hx [Hy ->]]]].
    unfold Np.sign in Hx, Hy. rewrite nth_error_map in Hx, Hy.
    destruct (nth_error eeg_filtered j) as [x|]; [|discriminate].
    destruct (nth_error eeg_filtered (S j)) as [y|]; [|discriminate].
    simpl in Hx, Hy. injection Hx as <-. injection Hy as <-.
    exists x, y. split; [reflexivity|]. split; [reflexivity|].
    intros Hsame. apply Hnz.
    destruct (sign1_values x) as [[Hx ->] | [[Hx ->] | [Hx ->]]];
      destruct (sign1_values y) as [[Hy ->] | [[Hy ->] | [Hy ->]]];
      try reflexivity; exfalso;
      destruct Hsame as [[H1 H2] | [[H1 H2] | [H1 H2]]]; lra.
  - intros [x [y [Hx [Hy Hdiff]]]]. split; [lia|].
    exists (Np.sign1 y - Np.sign1 x). split.
    + apply diff_nth_error. exists (Np.sign1 x), (Np.sign1 y).
      unfold Np.sign. rewrite !nth_error_map, Hx, Hy. auto.
    + intros E. apply Hdiff.
      destruct (sign1_values x) as [[Hsx Ex] | [[Hsx Ex] | [Hsx Ex]]];
        destruct (sign1_values y) as [[Hsy Ey] | [[Hsy Ey] | [Hsy Ey]]];
        rewrite Ex, Ey in E; try discriminate E; auto.
Qed.

(** The crossings of line 75 come in increasing order, and a window
    between crossing [i] and crossing [i + 2] is a real slice of
    [end_idx - start_idx >= 2] samples: on them the test of line 86 never
    holds. *)
Theorem candidate_has_two_samples (eeg_filtered : list Q)
    (i start_idx end_idx : nat) :
  let zero_crossings := Np.where_ (Np.diff (Np.sign eeg_filtered)) in
  nth_error zero_crossings i = Some start_idx ->
  nth_error zero_crossings (i + 2) = Some end_idx ->
  (start_idx + 2 <= end_idx)%nat /\
  (end_idx + 2 <= length eeg_filtered)%nat /\
  length (candidate eeg_filtered start_idx end_idx)
  = (end_idx - start_idx)%nat /\
  candidate eeg_filtered start_idx end_idx
  = firstn (end_idx - start_idx) (skipn start_idx eeg_filtered).
Proof.
  intros zc Hs He.
  assert (Hinc := where_from_increasing (Np.diff (Np.sign eeg_filtered)) 0).
  fold zc in Hinc.
  destruct (nth_error zc (i + 1)) as [m|] eqn:Hm.
  2:{ apply nth_error_None in Hm.
      assert (nth_error zc (i + 2) <> None) by congruence.
      apply nth_error_Some in H. lia. }
  assert (H1 : (start_idx < m)%nat)
    by (apply (Hinc i (i + 1)%nat); auto; lia).
  assert (H2 : (m < end_idx)%nat)
    by (apply (Hinc (i + 1)%nat (i + 2)%nat); auto; lia).
  assert (Hend : (end_idx + 2 <= length eeg_filtered)%nat).
  { apply zero_crossings_bound. apply nth_error_In in He. exact He. }
  assert (Hslice : candidate eeg_filtered start_idx end_idx
                   = firstn (end_idx - start_idx)
                       (skipn start_idx eeg_filtered)).
  { unfold candidate, Py.slice. rewrite !clip_inside by lia.
    rewrite !Nat2Z.id. reflexivity. }
  split; [lia|]. split; [exact Hend|]. split; [|exact Hslice].
  rewrite Hslice, length_firstn, length_skipn. lia.
Qed.

Lemma candidate_has_two_samples_witness :
  (7 + 2 <= 23)%nat /\
  (23 + 2 <= length (triangle_wave 3))%nat /\
  length (candidate (triangle_wave 3) 7 23) = (23 - 7)%nat /\
  candidate (triangle_wave 3) 7 23
  = firstn (23 - 7) (skipn 7 (triangle_wave 3)).
Proof.
  apply (@candidate_has_two_samples (triangle_wave 3) 0 7 23).
  - vm_compute. reflexivity.
  - vm_compute. reflexivity.
Defined.

(* ===================================================================== *)
(** * Further properties: what can raise *)
(* ===================================================================== *)

(** The [while] loop raises nothing, whatever the crossings and the
    filtered signal are: the loop test keeps both reads of
    [zero_crossings] inside the list, and the length test of line 86 keeps
    [np.max] and [np.min] away from an empty window.  Its result is never
    below the total it starts from. *)
Theorem scan_never_raises (eeg_filtered : list Q) (zero_crossings : list nat)
    (fs : Q) (i : nat) (total : Q) :
  exists t : Q,
    scan eeg_filtered zero_crossings fs i total = Ok t /\ total <= t.
Proof.
  destruct (scan_follows_run eeg_filtered zero_crossings fs
              (n := length zero_crossings - i) i total) as [acc [Hrun H]];
    [lia|].
  eexists. split; [exact H|].
  apply add_durations_grows. apply (run_durations Hrun).
Qed.



(* ===================================================================== *)
(** * Further properties: the value of the score *)
(* ===================================================================== *)

Lemma firstn_In {A : Type} (n : nat) (l : list A) (x : A) :
  In x (firstn n l) -> In x l.
Proof.
  intros H. rewrite <- (firstn_skipn n l). apply in_or_app. left. exact H.
Qed.

Lemma skipn_In {A : Type} (n : nat) (l : list A) (x : A) :
  In x (skipn n l) -> In x l.
Proof.
  intros H. rewrite <- (firstn_skipn n l). apply in_or_app. right. exact H.
Qed.

(** A sample of a window is a sample of the signal. *)
Lemma candidate_In (eeg_filtered : list Q) (s e : nat) (x : Q) :
  In x (candidate eeg_filtered s e) -> In x eeg_filtered.
Proof.
  unfold candidate, Py.slice. intros H.
  apply firstn_In in H. apply skipn_In in H. exact H.
Qed.

(** When no window is a slow wave, the runs of the cursor accept nothing
    and the loop returns the total it was given. *)
Lemma scan_without_waves (eeg_filtered : list Q) (zero_crossings : list nat)
    (fs : Q) :
  (forall s e, ~ is_slow_wave eeg_filtered fs s e) ->
  forall i total, scan eeg_filtered zero_crossings fs i total = Ok total.
Proof.
  intros Hnone i total.
  destruct (scan_follows_run eeg_filtered zero_crossings fs
              (n := length zero_crossings - i) i total) as [acc [Hrun H]];
    [lia|].
  assert (E : acc = []).
  { clear H. induction Hrun as [i Hstop
                               | i s e acc Hgo Hs He Hrej Hrun IH
                               | i s e acc Hgo Hs He Hlen Hyes Hrun IH].
    - reflexivity.
    - exact IH.
    - exfalso. apply (Hnone s e Hyes). }
  rewrite H, E. reflexivity.
Qed.

(** A filtered signal that stays on one side of zero, or whose largest
    and smallest samples are less than 75 apart, scores 0: no window of it
    can pass the sign test or the amplitude test. *)
Theorem score_zero_without_slow_waves
    (firwin : nat -> list Q -> bool -> exc (list Q))
    (filtfilt : list Q -> Q -> list Q -> exc (list Q))
    (eeg_signal : list Q) (fs epoch_duration : pynum) (swa : Q) :
  (forall taps eeg_filtered,
      filtfilt taps 1.0 eeg_signal = Ok eeg_filtered ->
      (forall x, In x eeg_filtered -> 0 <= x) \/
      (forall x, In x eeg_filtered -> x <= 0) \/
      (forall x y, In x eeg_filtered -> In y eeg_filtered -> x - y < 75)) ->
  score_n3_epoch firwin filtfilt eeg_signal fs epoch_duration = Ok swa ->
  swa == 0.
Proof.
  intros Hquiet Hscore.
  apply score_n3_epoch_Ok in Hscore.
  destruct Hscore as [[_ ->] | [_ [_ [_ Hrest]]]]; [reflexivity|].
  destruct Hrest as [taps [filtered [total [Hfilt [Hscan ->]]]]].
  rewrite scan_without_waves in Hscan.
  - injection Hscan as <-. unfold Qdiv. ring.
  - intros s e [[hi [lo [[Hhi _] [[Hlo _] Hamp]]]] [_ [Hpos Hneg]]].
    apply Exists_exists in Hpos. destruct Hpos as [p [Hp Hp0]].
    apply Exists_exists in Hneg. destruct Hneg as [n [Hn Hn0]].
    apply candidate_In in Hhi, Hlo, Hp, Hn.
    destruct (Hquiet taps filtered Hfilt) as [H | [H | H]].
    + specialize (H n Hn). lra.
    + specialize (H p Hp). lra.
    + specialize (H hi lo Hhi Hlo). lra.
Qed.

Lemma score_zero_without_slow_waves_witness :
  let quiet := map (fun x => (1 # 2) * x) (triangle_wave 3) in
  exists swa,
    score_n3_epoch firwin_unit filtfilt_id quiet (PyInt 16) (PyInt 3)
    = Ok swa /\ swa == 0.
Proof.
  intros quiet.
  assert (H : score_n3_epoch firwin_unit filtfilt_id quiet (PyInt 16)
                (PyInt 3) = Ok (0.0 / 3 * 100))
    by (vm_compute; reflexivity).
  eexists. split; [exact H|].
  apply (@score_zero_without_slow_waves firwin_unit filtfilt_id quiet
           (PyInt 16) (PyInt 3)); [|exact H].
  intros taps filtered E. injection E as <-.
  right. right. intros x y Hx Hy.
  assert (Hb : forall z, In z quiet -> - (21) <= z /\ z <= 21).
  { intros z Hz. vm_compute in Hz.
    repeat (destruct Hz as [<- | Hz]; [split; discriminate|]).
    destruct Hz. }
  destruct (Hb x Hx), (Hb y Hy). lra.
Defined.




(** On a signal longer than the epoch it is told, a direct call can
    return more than 100: seven seconds of slow waves scored as a
    3-second epoch give 200. *)
Example score_of_long_signal :
  exists swa,
    score_n3_epoch firwin_unit filtfilt_id (triangle_wave 7) (PyInt 16)
      (PyInt 3) = Ok swa /\ swa == 200.
Proof. eexists. split; [vm_compute; reflexivity | reflexivity]. Qed.

(* ===================================================================== *)
(** * Further properties: segmentation *)
(* ===================================================================== *)

Lemma for_append_ext {A B : Type} (body body' : A -> exc B)
    (items : list A) :
  (forall x, In x items -> body x = body' x) ->
  for_append body items = for_append body' items.
Proof.
  induction items as [|x rest IH]; intros H; simpl; [reflexivity|].
  rewrite (H x (or_introl eq_refl)), IH; [reflexivity|].
  intros y Hy. apply H. right. exact Hy.
Qed.

Lemma for_append_all_Ok {A B : Type} (body : A -> exc B) (g : A -> B)
    (items : list A) :
  (forall x, In x items -> body x = Ok (g x)) ->
  for_append body items = Ok (map g items).
Proof.
  induction items as [|x rest IH]; intros H; simpl; [reflexivity|].
  rewrite (H x (or_introl eq_refl)), IH; [reflexivity|].
  intros y Hy. apply H. right. exact Hy.
Qed.

Lemma for_append_raises {A B : Type} (body : A -> exc B)
    (before after : list A) (x : A) (e : exception) :
  (forall y, In y before -> exists r, body y = Ok r) ->
  body x = Raise e ->
  for_append body (before ++ x :: after) = Raise e.
Proof.
  induction before as [|y rest IH]; intros Hok Hx; simpl.
  - rewrite Hx. reflexivity.
  - destruct (Hok y (or_introl eq_refl)) as [r Hr]. rewrite Hr. simpl.
    rewrite IH; [reflexivity | | exact Hx].
    intros z Hz. apply Hok. right. exact Hz.
Qed.

(** With int arguments of positive product, the call is the loop over
    [range(len // samples_per_epoch)]. *)
Lemma score_n3_epochs_int
    (firwin : nat -> list Q -> bool -> exc (list Q))
    (filtfilt : list Q -> Q -> list Q -> exc (list Q))
    (eeg_signal : list Q) (f d : Z) :
  (d * f <> 0)%Z ->
  score_n3_epochs firwin filtfilt eeg_signal (PyInt f) (PyInt d)
  = for_append
      (score_one firwin filtfilt eeg_signal (PyInt f) (PyInt d)
         (PyInt (d * f)))
      (map Z.of_nat
         (seq 0 (Z.to_nat (Z.of_nat (length eeg_signal) / (d * f))))).
Proof.
  intros Hnz. unfold score_n3_epochs. simpl.
  destruct (Z.eqb_spec (d * f) 0) as [E|_]; [contradiction|].
  reflexivity.
Qed.

(** One pass of the loop at an epoch inside the recording: the score of
    the window, labelled. *)
Lemma score_one_eq
    (firwin : nat -> list Q -> bool -> exc (list Q))
    (filtfilt : list Q -> Q -> list Q -> exc (list Q))
    (eeg_signal : list Q) (f d : Z) (k : nat) :
  (0 < d * f)%Z ->
  (k < Z.to_nat (Z.of_nat (length eeg_signal) / (d * f)))%nat ->
  score_one firwin filtfilt eeg_signal (PyInt f) (PyInt d) (PyInt (d * f))
    (Z.of_nat k)
  = (swa <- score_n3_epoch firwin filtfilt
              (epoch_window eeg_signal (Z.to_nat (d * f)) k)
              (PyInt f) (PyInt d) ;;
     Ok {| epoch := Z.of_nat k;
           stage := if Qleb 20.0 swa then "N3"%string else "Not N3"%string;
           swa_percent := swa |}).
Proof.
  intros Hspe Hk. unfold score_one. simpl.
  rewrite slice_is_window; [reflexivity | exact Hspe |].
  pose proof (Z.mul_div_le (Z.of_nat (length eeg_signal)) (d * f) Hspe).
  assert (0 <= Z.of_nat (length eeg_signal) / (d * f))%Z
    by (apply Z.div_pos; lia).
  nia.
Qed.

(** Arguments that do not give a positive number of samples per epoch: a
    zero product raises [ZeroDivisionError], and a negative one returns
    the empty list without looking at the recording. *)
Theorem score_n3_epochs_nonpositive_product
    (firwin : nat -> list Q -> bool -> exc (list Q))
    (filtfilt : list Q -> Q -> list Q -> exc (list Q))
    (eeg_signal : list Q) (f d : Z) :
  ((d * f = 0)%Z ->
   score_n3_epochs firwin filtfilt eeg_signal (PyInt f) (PyInt d)
   = Raise ZeroDivisionError) /\
  ((d * f < 0)%Z ->
   score_n3_epochs firwin filtfilt eeg_signal (PyInt f) (PyInt d) = Ok []).
Proof.
  split.
  - intros E. unfold score_n3_epochs. simpl. rewrite E. reflexivity.
  - intros Hneg. rewrite score_n3_epochs_int by lia.
    set (len := Z.of_nat (length eeg_signal)).
    assert (Hn : (len / (d * f) <= 0)%Z).
    { assert (Hnz : (d * f <> 0)%Z) by lia.
      rewrite <- (Z.div_opp_opp len (d * f) Hnz).
      apply Z.div_le_upper_bound; subst len; lia. }
    replace (Z.to_nat (len / (d * f))) with 0%nat by lia.
    reflexivity.
Qed.

Lemma score_n3_epochs_nonpositive_product_witness :
  score_n3_epochs firwin_unit filtfilt_id (triangle_wave 7) (PyInt 0)
    (PyInt 3) = Raise ZeroDivisionError /\
  score_n3_epochs firwin_unit filtfilt_id (triangle_wave 7) (PyInt (-16))
    (PyInt 3) = Ok [].
Proof.
  split.
  - apply (proj1 (score_n3_epochs_nonpositive_product firwin_unit filtfilt_id
                    (triangle_wave 7) 0 3)). reflexivity.
  - apply (proj2 (score_n3_epochs_nonpositive_product firwin_unit filtfilt_id
                    (triangle_wave 7) (-16) 3)). reflexivity.
Defined.

Lemma window_app (eeg_signal tail : list Q) (spe k : nat) :
  ((k + 1) * spe <= length eeg_signal)%nat ->
  epoch_window (eeg_signal ++ tail) spe k = epoch_window eeg_signal spe k.
Proof.
  intros H. unfold epoch_window.
  rewrite skipn_app, firstn_app, length_skipn.
  replace (spe - (length eeg_signal - k * spe))%nat with 0%nat by nia.
  rewrite firstn_0, app_nil_r. reflexivity.
Qed.

(** Samples after the last full epoch change nothing: a recording and the
    same recording followed by samples that still do not complete an
    epoch give the same outcome, entry for entry. *)
Theorem score_n3_epochs_ignores_trailing
    (firwin : nat -> list Q -> bool -> exc (list Q))
    (filtfilt : list Q -> Q -> list Q -> exc (list Q))
    (eeg_signal tail : list Q) (f d : Z) :
  (0 < d * f)%Z ->
  (Z.of_nat (length eeg_signal) mod (d * f) + Z.of_nat (length tail)
   < d * f)%Z ->
  score_n3_epochs firwin filtfilt (eeg_signal ++ tail) (PyInt f) (PyInt d)
  = score_n3_epochs firwin filtfilt eeg_signal (PyInt f) (PyInt d).
Proof.
  intros Hspe Htail.
  rewrite !score_n3_epochs_int by lia.
  assert (Hlen0 : (0 <= Z.of_nat (length eeg_signal))%Z) by lia.
  assert (Hn : (Z.of_nat (length (eeg_signal ++ tail)) / (d * f)
                = Z.of_nat (length eeg_signal) / (d * f))%Z).
  { rewrite length_app, Nat2Z.inj_add.
    pose proof (Z.div_mod (Z.of_nat (length eeg_signal)) (d * f)
                  ltac:(lia)) as Hdm.
    pose proof (Z.mod_pos_bound (Z.of_nat (length eeg_signal)) (d * f) Hspe)
      as Hm.
    symmetry.
    apply (Z.div_unique _ _ _
             (Z.of_nat (length eeg_signal) mod (d * f)
              + Z.of_nat (length tail))); lia. }
  rewrite Hn. apply for_append_ext.
  intros i Hi. apply in_map_iff in Hi. destruct Hi as [k [<- Hk]].
  apply in_seq in Hk.
  rewrite (@score_one_eq firwin filtfilt eeg_signal f d k Hspe) by lia.
  rewrite (@score_one_eq firwin filtfilt (eeg_signal ++ tail) f d k Hspe)
    by (rewrite Hn; lia).
  rewrite window_app; [reflexivity|].
  pose proof (Z.mul_div_le (Z.of_nat (length eeg_signal)) (d * f) Hspe).
  assert (0 <= Z.of_nat (length eeg_signal) / (d * f))%Z
    by (apply Z.div_pos; lia).
  nia.
Qed.

Lemma score_n3_epochs_ignores_trailing_witness :
  score_n3_epochs firwin_unit filtfilt_id (triangle_wave 7 ++ [1; 2; 3])
    (PyInt 16) (PyInt 3)
  = score_n3_epochs firwin_unit filtfilt_id (triangle_wave 7) (PyInt 16)
      (PyInt 3).
Proof.
  apply score_n3_epochs_ignores_trailing.
  - reflexivity.
  - reflexivity.
Defined.

(** An exception in one epoch is not caught: when the epochs before
    epoch [k] are scored and scoring epoch [k] raises, the whole call
    raises that exception and no result list is returned. *)
Theorem score_n3_epochs_stops_at_first_exception
    (firwin : nat -> list Q -> bool -> exc (list Q))
    (filtfilt : list Q -> Q -> list Q -> exc (list Q))
    (eeg_signal : list Q) (f d : Z) (k : nat) (e : exception) :
  let samples_per_epoch := (d * f)%Z in
  let num_epochs :=
    Z.to_nat (Z.of_nat (length eeg_signal) / samples_per_epoch) in
  let window := epoch_window eeg_signal (Z.to_nat samples_per_epoch) in
  (0 < samples_per_epoch)%Z ->
  (k < num_epochs)%nat ->
  (forall j, (j < k)%nat ->
             exists swa, score_n3_epoch firwin filtfilt (window j)
                           (PyInt f) (PyInt d) = Ok swa) ->
  score_n3_epoch firwin filtfilt (window k) (PyInt f) (PyInt d) = Raise e ->
  score_n3_epochs firwin filtfilt eeg_signal (PyInt f) (PyInt d) = Raise e.
Proof.
  intros spe n window Hspe Hk Hbefore Hraise.
  subst spe n window. cbv beta in *.
  rewrite score_n3_epochs_int by lia.
  set (n := Z.to_nat (Z.of_nat (length eeg_signal) / (d * f))) in *.
  replace n with (k + S (n - S k))%nat by lia.
  rewrite seq_app, map_app. simpl.
  apply for_append_raises.
  - intros i Hi. apply in_map_iff in Hi. destruct Hi as [j [<- Hj]].
    apply in_seq in Hj.
    rewrite (@score_one_eq firwin filtfilt eeg_signal f d j Hspe)
      by (fold n; lia).
    destruct (Hbefore j) as [swa Hswa]; [lia|].
    rewrite Hswa. simpl. eexists. reflexivity.
  - rewrite (@score_one_eq firwin filtfilt eeg_signal f d k Hspe)
      by (fold n; lia).
    rewrite Hraise. reflexivity.
Qed.

Lemma score_n3_epochs_stops_at_first_exception_witness :
  score_n3_epochs firwin_unit filtfilt_raises (triangle_wave 7) (PyInt 16)
    (PyInt 3) = Raise ValueError.
Proof.
  apply (@score_n3_epochs_stops_at_first_exception firwin_unit
           filtfilt_raises (triangle_wave 7) 16 3 0 ValueError).
  - reflexivity.
  - vm_compute. lia.
  - intros j Hj. lia.
  - vm_compute. reflexivity.
Defined.

Lemma window_In (eeg_signal : list Q) (spe k : nat) (x : Q) :
  In x (epoch_window eeg_signal spe k) -> In x eeg_signal.
Proof.
  unfold epoch_window. intros H.
  apply firstn_In in H. apply skipn_In in H. exact H.
Qed.

(** Epochs the quality gate rejects are entered as "Not N3" with a score
    of exactly 0.0, whatever the filter would do: when the gate rejects
    every epoch, in particular on a recording of zeros, the result is the
    list of these entries, one per epoch. *)
Theorem score_n3_epochs_of_rejected_epochs
    (firwin : nat -> list Q -> bool -> exc (list Q))
    (filtfilt : list Q -> Q -> list Q -> exc (list Q))
    (eeg_signal : list Q) (f d : Z) :
  let samples_per_epoch := (d * f)%Z in
  let num_epochs :=
    Z.to_nat (Z.of_nat (length eeg_signal) / samples_per_epoch) in
  let window := epoch_window eeg_signal (Z.to_nat samples_per_epoch) in
  (0 < samples_per_epoch)%Z ->
  Forall (fun x => x == 0) eeg_signal \/
  (forall k, (k < num_epochs)%nat ->
             check_signal_quality (window k) (PyInt f) = Ok false) ->
  score_n3_epochs firwin filtfilt eeg_signal (PyInt f) (PyInt d)
  = Ok (map (fun k => {| epoch := Z.of_nat k;
                         stage := "Not N3";
                         swa_percent := 0.0 |})
          (seq 0 num_epochs)).
Proof.
  intros spe n window Hspe Hrej.
  subst spe n window. cbv beta in *.
  set (n := Z.to_nat (Z.of_nat (length eeg_signal) / (d * f))) in *.
  assert (Hgate : forall k, (k < n)%nat ->
                            check_signal_quality
                              (epoch_window eeg_signal (Z.to_nat (d * f)) k)
                              (PyInt f) = Ok false).
  { destruct Hrej as [Hz | Hg]; [|exact Hg].
    intros k _. apply gate_rejects_short_or_flat. right.
    apply Forall_forall. intros x Hx. apply window_In in Hx.
    rewrite Forall_forall in Hz. apply Hz. exact Hx. }
  rewrite score_n3_epochs_int by lia. fold n.
  rewrite (for_append_all_Ok _
             (fun i => {| epoch := i; stage := "Not N3";
                          swa_percent := 0.0 |})).
  - rewrite map_map. reflexivity.
  - intros i Hi. apply in_map_iff in Hi. destruct Hi as [k [<- Hk]].
    apply in_seq in Hk.
    rewrite (@score_one_eq firwin filtfilt eeg_signal f d k Hspe)
      by (fold n; lia).
    unfold score_n3_epoch.
    rewrite (Hgate k) by lia. reflexivity.
Qed.

Lemma score_n3_epochs_of_rejected_epochs_witness :
  score_n3_epochs firwin_raises filtfilt_raises (repeat 0 100) (PyInt 16)
    (PyInt 3)
  = Ok [ {| epoch := 0; stage := "Not N3"; swa_percent := 0.0 |};
         {| epoch := 1; stage := "Not N3"; swa_percent := 0.0 |} ].
Proof.
  apply (@score_n3_epochs_of_rejected_epochs firwin_raises filtfilt_raises
           (repeat 0 100) 16 3).
  - reflexivity.
  - left. apply Forall_forall. intros x Hx.
    apply repeat_spec in Hx. rewrite Hx. reflexivity.
Defined.

(* ===================================================================== *)
(** * Further properties: which test the gate applies *)
(* ===================================================================== *)






(* ===================================================================== *)
(** * Further properties: how many windows a total takes *)
(* ===================================================================== *)

Lemma run_durations_both (eeg_filtered : list Q) (zero_crossings : list nat)
    (fs : Q) (i : nat) (accepted : list (nat * nat)) :
  scan_run eeg_filtered zero_crossings fs i accepted ->
  Forall (fun w => 0.5 <= duration fs (fst w) (snd w) /\
                   duration fs (fst w) (snd w) <= 2.0) accepted.
Proof.
  intros Hrun.
  induction Hrun as [i Hstop
                    | i s e acc Hgo Hs He Hrej Hrun IH
                    | i s e acc Hgo Hs He Hlen Hyes Hrun IH].
  - constructor.
  - exact IH.
  - constructor; [|exact IH]. simpl.
    destruct Hyes as [_ [Hdur _]]. exact Hdur.
Qed.

Lemma add_durations_between (fs : Q) (windows : list (nat * nat)) :
  Forall (fun w => 0.5 <= duration fs (fst w) (snd w) /\
                   duration fs (fst w) (snd w) <= 2.0) windows ->
  forall total : Q,
    total + 0.5 * inject_Z (Z.of_nat (length windows))
    <= add_durations fs total windows /\
    add_durations fs total windows
    <= total + 2.0 * inject_Z (Z.of_nat (length windows)).
Proof.
  unfold add_durations.
  induction 1 as [|w ws [Hlo Hhi] _ IH]; intros total.
  - simpl. change (inject_Z 0) with 0. split; lra.
  - change (length (w :: ws)) with (S (length ws)).
    rewrite Nat2Z.inj_succ. unfold Z.succ. rewrite inject_Z_plus.
    change (inject_Z 1) with 1.
    simpl. destruct (IH (total + duration fs (fst w) (snd w))) as [H1 H2].
    split; lra.
Qed.

(** Every accepted window adds between 0.5 and 2.0 seconds: a scan that
    accepts [m] windows returns its starting total plus between [0.5 * m]
    and [2.0 * m] seconds. *)
Theorem scan_total_per_window (eeg_filtered : list Q)
    (zero_crossings : list nat) (fs : Q) (i : nat) (total t : Q)
    (accepted : list (nat * nat)) :
  scan_run eeg_filtered zero_crossings fs i accepted ->
  scan eeg_filtered zero_crossings fs i total = Ok t ->
  total + 0.5 * inject_Z (Z.of_nat (length accepted)) <= t /\
  t <= total + 2.0 * inject_Z (Z.of_nat (length accepted)).
Proof.
  intros Hrun Hscan.
  destruct (scan_follows_run eeg_filtered zero_crossings fs
              (n := length zero_crossings - i) i total) as [acc [Hrun' H]];
    [lia|].
  rewrite (scan_run_deterministic Hrun Hrun').
  rewrite Hscan in H. injection H as ->.
  apply add_durations_between. apply (run_durations_both Hrun').
Qed.

Lemma scan_total_per_window_witness :
  let zc := [7; 15; 23; 31; 39]%nat in
  exists accepted t,
    scan_run (triangle_wave 3) zc 16 0 accepted /\
    scan (triangle_wave 3) zc 16 0 0.0 = Ok t /\
    0.0 + 0.5 * inject_Z (Z.of_nat (length accepted)) <= t /\
    t <= 0.0 + 2.0 * inject_Z (Z.of_nat (length accepted)).
Proof.
  intros zc.
  destruct (scan_follows_run (triangle_wave 3) zc 16
              (n := length zc) 0 0.0) as [acc [Hrun H]]; [lia|].
  exists acc. eexists. split; [exact Hrun|]. split; [exact H|].
  apply (@scan_total_per_window (triangle_wave 3) zc 16 0%nat 0.0
           (add_durations 16 0.0 acc) acc Hrun H).
Defined.
